(** * annotatedcsv: the annotated-CSV decoder and the line-protocol encoder

    A shallow embedding of [main.go] (the table decoder: [csvReader],
    [readHeader], [readTableRows], [readTable], [readAll], [convertToType])
    and of [cmd/csv2lineprotocol/main.go] ([tableInfoForColumns],
    [escapeValue], [writeLineProtocol]), with the properties of the
    specification stated and proved over it.

    Layout: [Go] models the parts of the Go runtime and standard library the
    two programs call; [Main] is [main.go]; [Csv2lineprotocol] is
    [cmd/csv2lineprotocol/main.go]; [Sample] holds the inputs of the
    examples; [GoFacts], [MainFacts] and [Csv2lineprotocolFacts] hold the
    lemmas and theorems. *)

From Stdlib Require Import ZArith String Ascii List Floats DecimalString Lia.
From stdpp Require Import gmap strings list fin_maps.

Local Open Scope string_scope.
Local Open Scope Z_scope.

(* ===================================================================== *)
(** * The Go runtime, as far as the two programs use it                   *)
(* ===================================================================== *)

Module Go.

(** ** Machine integers *)

(** Go's [int], [int64]: 64-bit two's complement; arithmetic wraps. *)
Definition wrap64 (z : Z) : Z := (z + 2 ^ 63) mod 2 ^ 64 - 2 ^ 63.

Definition maxInt64 : Z := 2 ^ 63 - 1.
Definition maxUint64 : Z := 2 ^ 64 - 1.

(** ** Errors *)

Inductive numErr := ErrSyntax | ErrRange.

(** An [error] value. [Errorf] keeps the format string and the operands of
    a [fmt.Errorf] call as written at the call site, so that what a message
    carries can be read off without a model of [%q] quoting. *)
Inductive error :=
| EOF                                              (* io.EOF *)
| NumError (func num : string) (kind : numErr)     (* *strconv.NumError *)
| LibError (pkg msg : string)                      (* encoding/csv, time *)
| Errorf (format : string) (args : list arg)       (* fmt.Errorf *)
with arg :=
| AInt (n : Z)
| AStr (s : string)
| AErr (e : error).

(** ** Strings *)

(** strings.HasPrefix *)
Definition HasPrefix (s p : string) : bool := String.prefix p s.

(** strings.TrimPrefix *)
Definition TrimPrefix (s p : string) : string :=
  if HasPrefix s p
  then substring (String.length p) (String.length s - String.length p) s
  else s.

(** A [*strings.Replacer]: the (old, new) pairs in argument order. *)
Definition Replacer := list (string * string).

Definition NewReplacer (oldnew : list (string * string)) : Replacer := oldnew.

Fixpoint firstMatch (rp : Replacer) (s : string) : option (string * string) :=
  match rp with
  | nil => None
  | (old, new) :: rp' =>
      if String.prefix old s then Some (old, new) else firstMatch rp' s
  end.

(** [Replacer.Replace] for replacers whose old strings are all non-empty:
    scanning left to right, at each position the first pair (in argument
    order) whose old string matches is applied and the scan resumes after
    the match; [skip] counts the bytes of a match still to be passed. *)
Fixpoint replaceFrom (rp : Replacer) (skip : nat) (s : string) : string :=
  match s with
  | EmptyString => EmptyString
  | String c s' =>
      match skip with
      | S k => replaceFrom rp k s'
      | O =>
          match firstMatch rp s with
          | Some (old, new) =>
              new +:+ replaceFrom rp (Nat.pred (String.length old)) s'
          | None => String c (replaceFrom rp O s')
          end
      end
  end.

Definition Replace (rp : Replacer) (s : string) : string := replaceFrom rp O s.

(** The [%d] verb on an integer. *)
Definition formatInt (z : Z) : string := NilZero.string_of_int (Z.to_int z).

(** fmt.Sprint on a bool. *)
Definition formatBool (b : bool) : string := if b then "true" else "false".

(** ** strconv *)

(** strconv.ParseBool *)
Definition ParseBool (str : string) : bool * option error :=
  if (str =? "1")%string || (str =? "t")%string || (str =? "T")%string
     || (str =? "true")%string || (str =? "TRUE")%string || (str =? "True")%string
  then (true, None)
  else if (str =? "0")%string || (str =? "f")%string || (str =? "F")%string
     || (str =? "false")%string || (str =? "FALSE")%string || (str =? "False")%string
  then (false, None)
  else (false, Some (NumError "ParseBool" str ErrSyntax)).

Definition digitValue (c : ascii) : option Z :=
  let n := Z.of_N (N_of_ascii c) in
  if (48 <=? n) && (n <=? 57) then Some (n - 48) else None.

(** The digit loop of strconv.ParseUint(s, 10, 64): a byte that is not a
    decimal digit is a syntax error, a value past [maxUint64] a range error,
    whichever comes first. *)
Fixpoint parseDigits (s : string) (n : Z) : Z * option numErr :=
  match s with
  | EmptyString => (n, None)
  | String c s' =>
      match digitValue c with
      | None => (0, Some ErrSyntax)
      | Some d =>
          let n1 := n * 10 + d in
          if maxUint64 <? n1 then (maxUint64, Some ErrRange)
          else parseDigits s' n1
      end
  end.

Definition parseUint (s : string) : Z * option numErr :=
  match s with
  | EmptyString => (0, Some ErrSyntax)
  | _ => parseDigits s 0
  end.

(** strconv.ParseUint(s, 10, 64) *)
Definition ParseUint (s : string) : Z * option error :=
  match parseUint s with
  | (n, None) => (n, None)
  | (n, Some k) => (n, Some (NumError "ParseUint" s k))
  end.

(** strconv.ParseInt(s, 10, 64) *)
Definition ParseInt (s : string) : Z * option error :=
  match s with
  | EmptyString => (0, Some (NumError "ParseInt" s ErrSyntax))
  | String c s' =>
      let neg := Ascii.eqb c "-" in
      let body := if Ascii.eqb c "+" || neg then s' else s in
      match parseUint body with
      | (_, Some ErrSyntax) => (0, Some (NumError "ParseInt" s ErrSyntax))
      | (un, Some ErrRange) =>
          (if neg then - 2 ^ 63 else maxInt64, Some (NumError "ParseInt" s ErrRange))
      | (un, None) =>
          if negb neg && (2 ^ 63 <=? un) then
            (maxInt64, Some (NumError "ParseInt" s ErrRange))
          else if neg && (2 ^ 63 <? un) then
            (- 2 ^ 63, Some (NumError "ParseInt" s ErrRange))
          else (if neg then - un else un, None)
      end
  end.

(** ** math *)

(** [float64] is IEEE 754 binary64, the kernel's primitive [float]. *)
Definition IsInf (x : float) : bool := PrimFloat.is_infinity x.
Definition IsNaN (x : float) : bool := PrimFloat.is_nan x.

(** ** time *)

(** A [time.Time], as the instant it denotes: seconds since the Unix epoch
    and nanoseconds within the second. *)
Record Time := mkTime { unixSec : Z; nsec : Z }.

(** Time.UnixNano: computed in int64. *)
Definition UnixNano (t : Time) : Z := wrap64 (unixSec t * 1000000000 + nsec t).

(** Days from 1970-01-01 to a date of the proleptic Gregorian calendar. *)
Definition daysFromCivil (y m d : Z) : Z :=
  let y' := if m <=? 2 then y - 1 else y in
  let era := y' / 400 in
  let yoe := y' - era * 400 in
  let mp := if 2 <? m then m - 3 else m + 9 in
  let doy := (153 * mp + 2) / 5 + d - 1 in
  let doe := yoe * 365 + yoe / 4 - yoe / 100 + doy in
  era * 146097 + doe - 719468.

(** time.Date(year, month, day, hour, min, sec, nsec, time.UTC), for fields
    within their calendar ranges. *)
Definition Date (year month day hour min sec ns : Z) : Time :=
  {| unixSec := daysFromCivil year month day * 86400 + hour * 3600 + min * 60 + sec;
     nsec := ns |}.

Definition RFC3339 : string := "2006-01-02T15:04:05Z07:00".
Definition RFC3339Nano : string := "2006-01-02T15:04:05.999999999Z07:00".

(** ** Interface values *)

(** What an [interface{}] of these programs can hold: nil, a value of one
    of the six dynamic types the decoder produces, or a value of some other
    type, kept by the name [%T] prints for it. *)
Inductive any :=
| Nil
| Int64 (n : Z)
| Uint64 (n : Z)
| Float64 (x : float)
| Bool (b : bool)
| Str (s : string)
| TimeVal (t : Time)
| Other (T : string).

Definition isNil (v : any) : bool :=
  match v with Nil => true | _ => false end.

(** The six dynamic types of the decoder's values: int64, uint64, float64,
    bool, string, time.Time. *)
Definition decoderKind (v : any) : bool :=
  match v with
  | Int64 _ | Uint64 _ | Float64 _ | Bool _ | Str _ | TimeVal _ => true
  | Nil | Other _ => false
  end.

(** ** What is left abstract

    Decimal-to-binary64 conversion, shortest round-trip printing of a
    float64 and layout-driven time parsing are library algorithms of their
    own; the programs only call them, so they are the operations of a
    [Runtime], and every statement below holds for whatever they return. *)
Class Runtime := {
  ParseFloat : string -> float * option error;          (* strconv.ParseFloat(s, 64) *)
  formatFloat : float -> string;                        (* fmt.Sprint(x), x float64 *)
  time_Parse : string -> string -> Time * option error  (* time.Parse(layout, value) *)
}.

End Go.

(* ===================================================================== *)
(** * main.go: the decoder                                                *)
(* ===================================================================== *)

Module Main.
Import Go.

(** ** Data *)

Record column := mkColumn {
  Index : Z;
  Name : string;
  Group : bool;
  Default : any;
  Type_ : string
}.

(** The zero value of [column], what [make([]column, n)] is filled with. *)
Definition zeroColumn : column :=
  {| Index := 0; Name := ""; Group := false; Default := Nil; Type_ := "" |}.

Definition setIndex (i : Z) (c : column) : column :=
  {| Index := i; Name := Name c; Group := Group c; Default := Default c; Type_ := Type_ c |}.
Definition setName (s : string) (c : column) : column :=
  {| Index := Index c; Name := s; Group := Group c; Default := Default c; Type_ := Type_ c |}.
Definition setGroup (b : bool) (c : column) : column :=
  {| Index := Index c; Name := Name c; Group := b; Default := Default c; Type_ := Type_ c |}.
Definition setDefault (v : any) (c : column) : column :=
  {| Index := Index c; Name := Name c; Group := Group c; Default := v; Type_ := Type_ c |}.
Definition setType (t : string) (c : column) : column :=
  {| Index := Index c; Name := Name c; Group := Group c; Default := Default c; Type_ := t |}.

Record table := mkTable {
  Columns : gmap string column;
  Rows : list (gmap string any)
}.

(** The table with no columns and no rows. *)
Definition emptyTable : table := {| Columns := ∅; Rows := nil |}.

(** ** The underlying [*csv.Reader]

    [encoding/csv] is seen through its [Read] method only: the reader is the
    sequence of results its successive [Read] calls return (a record with a
    nil error, or an error), and the number of calls made so far. Past the
    end of the sequence every call returns [io.EOF]. *)
Definition readResult : Type := list string * option error.

Record csv_Reader := mkCsv {
  results : list readResult;
  pos : nat
}.

Definition csv_Read (c : csv_Reader) : readResult * csv_Reader :=
  (nth (pos c) (results c) (nil, Some EOF), {| results := results c; pos := S (pos c) |}).

(** ** [encoding/csv] on plain text

    [main] reads standard input through [csv.NewReader] with
    [FieldsPerRecord = -1]. On a text without double quotes and carriage
    returns that reader works line by line: a line is what stands before a
    newline, or before the end of the text when something stands there; an
    empty line is skipped and yields no record; every other line is one
    record, whose fields are what its commas separate. Quoted fields, which
    may span lines, are outside what is modelled here. *)
Definition plainText (text : string) : bool :=
  forallb (fun c => negb (Ascii.eqb c "034") && negb (Ascii.eqb c "013"))
    (list_ascii_of_string text).

(** The pieces of [s] between the occurrences of [sep]. *)
Fixpoint splitOn (sep : ascii) (s : string) : list string :=
  match s with
  | EmptyString => [EmptyString]
  | String c s' =>
      if Ascii.eqb c sep then EmptyString :: splitOn sep s'
      else
        match splitOn sep s' with
        | piece :: pieces => String c piece :: pieces
        | nil => [String c EmptyString]
        end
  end.

(** The records of the lines [lines], the first of which is line [n] of
    the text, each with the number of the line it stands on. *)
Fixpoint recordsFrom (n : nat) (lines : list string) : list (nat * list string) :=
  match lines with
  | nil => nil
  | l :: lines' =>
      if (l =? "")%string then recordsFrom (S n) lines'
      else (n, splitOn "," l) :: recordsFrom (S n) lines'
  end.

Definition csvRecords (text : string) : list (nat * list string) :=
  recordsFrom 1 (splitOn "010" text).

(** What the successive [Read] calls of the underlying reader return on
    [text], before [io.EOF]. *)
Definition csvResults (text : string) : list readResult :=
  map (fun p => (snd p, None)) (csvRecords text).

(** ** csvReader *)

Record csvReader := mkReader {
  hasPeeked : bool;
  row : list string;
  err : option error;
  r : csv_Reader;
  line : Z
}.

(** [&csvReader{r: csv.NewReader(os.Stdin)}] *)
Definition newReader (input : list readResult) : csvReader :=
  {| hasPeeked := false; row := nil; err := None;
     r := {| results := input; pos := 0 |}; line := 0 |}.

Definition Read (cr : csvReader) : readResult * csvReader :=
  if hasPeeked cr then
    ((row cr, err cr),
     {| hasPeeked := false; row := row cr; err := err cr; r := r cr; line := line cr |})
  else
    let '(res, c) := csv_Read (r cr) in
    (res,
     {| hasPeeked := false; row := row cr; err := err cr; r := c;
        line := wrap64 (line cr + 1) |}).

Definition Peek (cr : csvReader) : readResult * csvReader :=
  if hasPeeked cr then ((row cr, err cr), cr)
  else
    let '((rec, e), c) := csv_Read (r cr) in
    ((rec, e),
     {| hasPeeked := true; row := rec; err := e; r := c;
        line := wrap64 (line cr + 1) |}).

(** ** What the reader has consumed and what is still to come *)

(** The results the next [Peek] and [Read] calls will deliver, in order: a
    peeked result that has not been read yet, then what the underlying
    reader has left. *)
Definition upcoming (cr : csvReader) : list readResult :=
  ((if hasPeeked cr then [(row cr, err cr)] else nil)
   ++ drop (pos (r cr)) (results (r cr)))%list.

(** The head of that sequence; past its end the answer is [io.EOF]. *)
Definition nextResult (l : list readResult) : readResult :=
  match l with
  | x :: _ => x
  | nil => (nil, Some EOF)
  end.

(** The [n]-th result of the input, counting from 1; past the end the
    underlying reader answers [io.EOF]. *)
Definition nthResult (input : list readResult) (n : nat) : readResult :=
  nth (n - 1) input (nil, Some EOF).

(** The state of a reader that has counted its lines from the start of the
    input: [line] is the number of results fetched so far (as an [int]), and
    a peeked result is the last one fetched. [newReader] starts in such a
    state and [Peek] and [Read] keep it. *)
Definition tracks (cr : csvReader) : Prop :=
  line cr = wrap64 (Z.of_nat (pos (r cr)))
  /\ (hasPeeked cr = true ->
      (1 <= pos (r cr))%nat
      /\ nthResult (results (r cr)) (pos (r cr)) = (row cr, err cr)).

(** The reader has just read the [n]-th result of the input, the record
    [rec], and its line counter says so. *)
Definition lastRead (cr : csvReader) (n : nat) (rec : list string) : Prop :=
  hasPeeked cr = false
  /\ (1 <= n)%nat
  /\ pos (r cr) = n
  /\ nthResult (results (r cr)) n = (rec, None)
  /\ line cr = wrap64 (Z.of_nat n).

(** Two runs of a decoding step agree: both return, they leave the same
    results to come, and either both succeed with the same value or both
    fail. *)
Definition agree {A : Type}
    (x y : option ((A * option error) * csvReader)) : Prop :=
  match x, y with
  | Some ((a, ea), ca), Some ((b, eb), cb) =>
      upcoming ca = upcoming cb
      /\ ((ea = None /\ eb = None /\ a = b) \/ (is_Some ea /\ is_Some eb))
  | _, _ => False
  end.

(** The same for [readTable]. *)
Definition agreeTable (x y : option ((table + error) * csvReader)) : Prop :=
  match x, y with
  | Some (inl t, c), Some (inl t', c') => t = t' /\ upcoming c = upcoming c'
  | Some (inr _, c), Some (inr _, c') => upcoming c = upcoming c'
  | _, _ => False
  end.

(** ** Sequences of calls *)

(** A caller's use of a reader: a sequence of [Peek] and [Read] calls, run
    in order; the trace keeps what each call returned. *)
Inductive call := CallPeek | CallRead.

Fixpoint run (calls : list call) (cr : csvReader)
    : list (call * readResult) * csvReader :=
  match calls with
  | nil => (nil, cr)
  | CallPeek :: calls' =>
      let '(res, cr1) := Peek cr in
      let '(trace, cr2) := run calls' cr1 in
      ((CallPeek, res) :: trace, cr2)
  | CallRead :: calls' =>
      let '(res, cr1) := Read cr in
      let '(trace, cr2) := run calls' cr1 in
      ((CallRead, res) :: trace, cr2)
  end.

(** What a one-row lookahead over the stream [s] of results must answer:
    [k] results have been read; a [Peek] answers [s k] and stays, a [Read]
    answers [s k] and moves on. *)
Fixpoint lookahead (calls : list call) (s : nat -> readResult) (k : nat)
    : list (call * readResult) :=
  match calls with
  | nil => nil
  | CallPeek :: calls' => (CallPeek, s k) :: lookahead calls' s k
  | CallRead :: calls' => (CallRead, s k) :: lookahead calls' s (S k)
  end.

(** The results a list holds, followed by [io.EOF] for ever. *)
Definition stream (l : list readResult) (k : nat) : readResult :=
  nth k l (nil, Some EOF).

Fixpoint countReads (calls : list call) : nat :=
  match calls with
  | nil => O
  | CallPeek :: calls' => countReads calls'
  | CallRead :: calls' => S (countReads calls')
  end.

(** The results a reader has handed out through [Read]: those fetched, less
    a peeked one. *)
Definition consumed (cr : csvReader) : nat :=
  (pos (r cr) - (if hasPeeked cr then 1 else 0))%nat.

(** Whether an error carries the integer [n] among its operands. *)
Definition carriesInt (n : Z) (e : error) : bool :=
  match e with
  | Errorf _ args =>
      existsb (fun a => match a with AInt m => m =? n | _ => false end) args
  | _ => false
  end.

Section Decoder.
Context {rt : Runtime}.

(** ** convertToType *)

Definition timeFormats : gmap string string :=
  <[ "RFC3339" := RFC3339 ]> (<[ "RFC3339Nano" := RFC3339Nano ]> ∅).

(** The diagnostic written to standard error for an unknown type tag is not
    part of the result and is left out. *)
Definition convertToType (s typ : string) : any * option error :=
  if (typ =? "boolean")%string then
    let '(b, e) := ParseBool s in (Bool b, e)
  else if (typ =? "long")%string then
    let '(n, e) := ParseInt s in (Int64 n, e)
  else if (typ =? "unsignedLong")%string then
    let '(n, e) := ParseUint s in (Uint64 n, e)
  else if (typ =? "double")%string then
    match ParseFloat s with
    | (_, Some e) => (Nil, Some e)
    | (x, None) =>
        if IsInf x || IsNaN x then (Str s, None) else (Float64 x, None)
    end
  else if (typ =? "string")%string || (typ =? "tag")%string || (typ =? "")%string then
    (Str s, None)
  else
    let timeFormat := TrimPrefix typ "dateTime:" in
    if negb (String.length timeFormat =? String.length typ)%nat then
      let layout := default "" (timeFormats !! timeFormat) in
      if (layout =? "")%string then
        (Nil, Some (Errorf "unknown time format %q" [AStr typ]))
      else
        let '(t, e) := time_Parse layout s in (TimeVal t, e)
    else (Str s, None).

(** ** readHeader *)

(** [for i, v := range row { cols[i] = f(v, cols[i]) }]. Every caller has
    checked [len(row) == len(cols)], so the index is always in range and the
    loop walks the two slices in step. *)
Fixpoint assignAll (f : string -> column -> column)
    (cols : list column) (vals : list string) : list column :=
  match cols, vals with
  | c :: cols', v :: vals' => f v c :: assignAll f cols' vals'
  | _, _ => cols
  end.

(** [for i := 1; i < len(row); i++ { cols[i] = f(row[i], cols[i]) }]:
    field 0 holds the annotation key and column 0 is left as it is. *)
Definition assignFrom1 (f : string -> column -> column)
    (cols : list column) (vals : list string) : list column :=
  match cols, vals with
  | c0 :: cols', _ :: vals' => c0 :: assignAll f cols' vals'
  | _, _ => cols
  end.

(** The loop over [defaults] from index 1 on; a failed conversion returns
    [nil] and the error at once. [passed] holds the columns already gone
    through, in reverse. *)
Fixpoint defaultsLoop (passed cols : list column) (ds : list string)
    : list column * option error :=
  match cols, ds with
  | c :: cols', d :: ds' =>
      if (d =? "")%string then defaultsLoop (c :: passed) cols' ds'
      else
        match convertToType d (Type_ c) with
        | (_, Some e) =>
            (nil, Some (Errorf "cannot convert default value %q to type %q: %v"
                          [AStr d; AStr (Type_ c); AErr e]))
        | (x, None) => defaultsLoop (setDefault x c :: passed) cols' ds'
        end
  | _, _ => (rev_append passed cols, None)
  end.

(** The code after the header loop: [if defaults != nil { ... }; return cols, nil].
    [defaults] is nil or a row of [len(cols) >= 1] fields. *)
Definition applyDefaults (cols : list column) (defaults : list string)
    : list column * option error :=
  match defaults, cols with
  | nil, _ => (cols, None)
  | _ :: ds, c0 :: cols' => defaultsLoop [c0] cols' ds
  | _ :: _, nil => (cols, None)
  end.

Definition firstField (rec : list string) : string :=
  match rec with f :: _ => f | nil => "" end.

(** How many results are still to come for the loops below: what the
    underlying reader has not returned yet, and a peeked record. *)
Definition remaining (cr : csvReader) : nat :=
  (length (results (r cr)) - pos (r cr))%nat
  + (if hasPeeked cr then match err cr with None => 1 | Some _ => 0 end else 0)%nat.

(** The check at the top of the loop body of [readHeader]: the first row
    sets the column count ([cols == nil]), every later row must have it;
    [ln] is [r.line]. *)
Definition checkedColumns (cols : list column) (rec : list string) (ln : Z)
    : list column + error :=
  match cols with
  | nil =>
      if (length rec =? 0)%nat then
        inr (Errorf "no columns in table header at line %d" [AInt ln])
      else inl (replicate (length rec) zeroColumn)
  | _ :: _ =>
      if negb (length rec =? length cols)%nat then
        inr (Errorf "inconsistent table header (got %d items want %d)"
               [AInt (Z.of_nat (length rec)); AInt (Z.of_nat (length cols))])
      else inl cols
  end.

(** The [for] loop of [readHeader]. [cols] and [defaults] are nil ([nil])
    until set, and never set to an empty slice. The warning printed for an
    unknown annotation is left out. *)
Fixpoint readHeader_loop (fuel : nat) (cols : list column) (defaults : list string)
    (cr : csvReader) : option ((list column * option error) * csvReader) :=
  match fuel with
  | O => None
  | S fuel' =>
      let '((rec, e), cr1) := Peek cr in
      match e with
      | Some _ => Some ((cols, None), cr1)
      | None =>
          let cr2 := snd (Read cr1) in
          match checkedColumns cols rec (line cr2) with
          | inr e' => Some ((nil, Some e'), cr2)
          | inl cols1 =>
              let key := firstField rec in
              if negb (HasPrefix key "#") then
                Some (applyDefaults (assignAll setName cols1 rec) defaults, cr2)
              else if (key =? "#datatype")%string then
                readHeader_loop fuel' (assignFrom1 setType cols1 rec) defaults cr2
              else if (key =? "#group")%string then
                readHeader_loop fuel'
                  (assignFrom1 (fun v => setGroup (v =? "true")%string) cols1 rec)
                  defaults cr2
              else if (key =? "#default")%string then
                readHeader_loop fuel' cols1 rec cr2
              else
                readHeader_loop fuel' cols1 defaults cr2
          end
      end
  end.

Definition readHeader (cr : csvReader)
    : option ((list column * option error) * csvReader) :=
  readHeader_loop (S (remaining cr)) nil nil cr.

(** ** readTableRows *)

(** The loop over the fields of one data row, [for i, val := range row]
    with [col := cols[i]]; the caller has checked [len(row) == len(cols)].
    A failed conversion gives back the field text and the declared type. *)
Fixpoint rowFields (cols : list column) (vals : list string)
    (rowMap : gmap string any) : gmap string any + (string * string) :=
  match cols, vals with
  | col :: cols', val :: vals' =>
      if negb (isNil (Default col)) && (val =? "")%string then
        rowFields cols' vals' (<[ Name col := Default col ]> rowMap)
      else if (val =? "")%string && (Name col =? "")%string then
        rowFields cols' vals' rowMap
      else
        match convertToType val (Type_ col) with
        | (_, Some _) => inr (val, Type_ col)
        | (x, None) => rowFields cols' vals' (<[ Name col := x ]> rowMap)
        end
  | _, _ => inl rowMap
  end.

Definition startsTable (rec : list string) : bool :=
  match rec with
  | f :: _ => HasPrefix f "#"
  | nil => false
  end.

Fixpoint readTableRows_loop (fuel : nat) (cols : list column)
    (rows : list (gmap string any)) (cr : csvReader)
    : option ((list (gmap string any) * option error) * csvReader) :=
  match fuel with
  | O => None
  | S fuel' =>
      let '((rec, e), cr1) := Peek cr in
      match e with
      | Some _ => Some ((rows, None), cr1)
      | None =>
          if startsTable rec then Some ((rows, None), cr1)
          else
            let cr2 := snd (Read cr1) in
            if negb (length rec =? length cols)%nat then
              Some ((rows,
                     Some (Errorf "inconsistent number of columns at line %d"
                             [AInt (line cr2)])), cr2)
            else
              match rowFields cols rec ∅ with
              | inr (val, typ) =>
                  Some ((rows,
                         Some (Errorf "cannot parse %q as type %q at line %d"
                                 [AStr val; AStr typ; AInt (line cr2)])), cr2)
              | inl rowMap => readTableRows_loop fuel' cols (rows ++ [rowMap])%list cr2
              end
      end
  end.

Definition readTableRows (cr : csvReader) (cols : list column)
    : option ((list (gmap string any) * option error) * csvReader) :=
  readTableRows_loop (S (remaining cr)) cols nil cr.

(** ** readTable *)

(** The loop that builds [columnsMap], [i] being the index of the head of
    [cols]. *)
Fixpoint columnsMapFrom (i : Z) (cols : list column)
    (columnsMap : gmap string column) : gmap string column :=
  match cols with
  | nil => columnsMap
  | col :: cols' =>
      if (Name col =? "")%string && isNil (Default col) then
        columnsMapFrom (i + 1) cols' columnsMap
      else
        columnsMapFrom (i + 1) cols' (<[ Name col := setIndex i col ]> columnsMap)
  end.

(** [readTable] returns [(nil, err)] or [(&table{...}, nil)]. *)
Definition readTable (cr : csvReader) : option ((table + error) * csvReader) :=
  '((cols, e), cr1) ← readHeader cr;
  match e with
  | Some e => Some (inr e, cr1)
  | None =>
      '((rows, e), cr2) ← readTableRows cr1 cols;
      match e with
      | Some e => Some (inr e, cr2)
      | None =>
          Some (inl {| Columns := columnsMapFrom 0 cols ∅; Rows := rows |}, cr2)
      end
  end.

(** ** readAll *)

Fixpoint readAll_loop (fuel : nat) (tables : list table) (cr : csvReader)
    : option ((list table * option error) * csvReader) :=
  match fuel with
  | O => None
  | S fuel' =>
      '(res, cr1) ← readTable cr;
      match res with
      | inr e => Some ((tables, Some e), cr1)
      | inl t =>
          let tables1 := (tables ++ [t])%list in
          let '((_, e), cr2) := Peek cr1 in
          match e with
          | Some EOF => Some ((tables1, None), cr2)
          | Some e => Some ((nil, Some e), cr2)
          | None => readAll_loop fuel' tables1 cr2
          end
      end
  end.

Definition readAll (cr : csvReader) : option ((list table * option error) * csvReader) :=
  readAll_loop (S (remaining cr)) nil cr.

(** ** The errors of the decoder, by shape *)

(** An error of [readHeader] raised after reading [rec], the [n]-th result
    of the input: the first row of the header section is empty; or [rec]
    has not as many fields as the rows before it; or a default does not
    convert to its column's type. *)
Definition headerFailure (rec : list string) (n : nat) (e : error) : Prop :=
  (rec = nil
   /\ e = Errorf "no columns in table header at line %d" [AInt (wrap64 (Z.of_nat n))])
  \/ (exists want : nat,
        want <> length rec
        /\ e = Errorf "inconsistent table header (got %d items want %d)"
                 [AInt (Z.of_nat (length rec)); AInt (Z.of_nat want)])
  \/ (exists (d typ : string) (cause : error),
        snd (convertToType d typ) = Some cause
        /\ e = Errorf "cannot convert default value %q to type %q: %v"
                 [AStr d; AStr typ; AErr cause]).

(** An error of [readTableRows] raised after reading the data row [rec],
    the [n]-th result of the input: [rec] has not as many fields as the
    table has columns; or one of its fields does not convert to the type
    declared for its column. *)
Definition rowFailure (cols : list column) (rec : list string) (n : nat)
    (e : error) : Prop :=
  (length rec <> length cols
   /\ e = Errorf "inconsistent number of columns at line %d"
            [AInt (wrap64 (Z.of_nat n))])
  \/ (exists (i : nat) (val : string) (col : column),
        rec !! i = Some val
        /\ cols !! i = Some col
        /\ is_Some (snd (convertToType val (Type_ col)))
        /\ e = Errorf "cannot parse %q as type %q at line %d"
                 [AStr val; AStr (Type_ col); AInt (wrap64 (Z.of_nat n))]).

(** ** The schema a header section declares *)

(** The last of the rows [annots] whose first field is [key]; [nil] when
    there is none. *)
Definition lastRow (key : string) (annots : list (list string)) : list string :=
  foldl (fun acc row => if (firstField row =? key)%string then row else acc)
    nil annots.

(** The column at position [i] after the annotation rows [annots]: column 0
    sits under the annotation keys and takes nothing from them; another
    column takes its type from the last [#datatype] row and its group flag
    from the last [#group] row. *)
Definition annotatedColumn (annots : list (list string)) (i : nat) : column :=
  {| Index := 0;
     Name := "";
     Group := match i with
              | O => false
              | S _ => (nth i (lastRow "#group" annots) "" =? "true")%string
              end;
     Default := Nil;
     Type_ := match i with
              | O => ""
              | S _ => nth i (lastRow "#datatype" annots) ""
              end |}.

Definition annotated (annots : list (list string)) (n : nat) : list column :=
  map (annotatedColumn annots) (seq 0 n).

(** The text of the default of column [i]: from the last [#default] row,
    and none for column 0. *)
Definition defaultText (annots : list (list string)) (i : nat) : string :=
  match i with
  | O => ""
  | S _ => nth i (lastRow "#default" annots) ""
  end.

(** The column at position [i] of a table whose header section is the
    annotation rows [annots] followed by the header row [header]. *)
Definition schemaColumn (annots : list (list string)) (header : list string)
    (i : nat) : column :=
  let c := annotatedColumn annots i in
  let d := defaultText annots i in
  {| Index := 0;
     Name := nth i header "";
     Group := Group c;
     Default := if (d =? "")%string then Nil else fst (convertToType d (Type_ c));
     Type_ := Type_ c |}.

(** What the loop over the defaults does to a column. *)
Definition withDefault (d : string) (c : column) : column :=
  if (d =? "")%string then c else setDefault (fst (convertToType d (Type_ c))) c.

(** A row of the header section before the header row: as wide as the
    header row, its first field starting with [#]. *)
Definition annotationRow (width : nat) (row : list string) : Prop :=
  length row = width /\ HasPrefix (firstField row) "#" = true.

(** ** The cells of a data row *)

(** What the field [val] under the column [col] puts into the row map:
    the column's default for an empty field when there is one, nothing for
    an empty field under an unnamed column, the converted field
    otherwise. *)
Definition cellValue (col : column) (val : string) : option any :=
  if negb (isNil (Default col)) && (val =? "")%string then Some (Default col)
  else if (val =? "")%string && (Name col =? "")%string then None
  else Some (fst (convertToType val (Type_ col))).

(** The error of the conversion of that field, when it is converted. *)
Definition cellError (col : column) (val : string) : option error :=
  if negb (isNil (Default col)) && (val =? "")%string then None
  else if (val =? "")%string && (Name col =? "")%string then None
  else snd (convertToType val (Type_ col)).

(** A result at which [readTableRows] stops without consuming it: an error
    of the underlying reader, or a record that starts the next table. *)
Definition stopsRows (res : readResult) : Prop :=
  match res with
  | (_, Some _) => True
  | (rec, None) => startsTable rec = true
  end.

End Decoder.
End Main.

(* ===================================================================== *)
(** * cmd/csv2lineprotocol/main.go: the line-protocol encoder             *)
(* ===================================================================== *)

Module Csv2lineprotocol.
Import Go.

(** ** Running a function that may panic *)

Inductive exec (A : Type) :=
| Returns (a : A)
| Panics (e : error).
Arguments Returns {A} a.
Arguments Panics {A} e.

#[local] Instance exec_bind : MBind exec := fun A B k m =>
  match m with
  | Returns a => k a
  | Panics e => Panics e
  end.

(** ** The package [annotatedcsv] *)

(** Modelled from the spec: [annotatedcsv.Column] is not among the sources;
    the specification gives a column an index, a name, a declared type, a
    group flag and an optional default, and the encoder reads [Name] and
    [Type] only. *)
Definition Column : Type := Main.column.
Abbreviation Name := Main.Name.
Abbreviation Type_ := Main.Type_.

(** Modelled from the spec: [*annotatedcsv.Reader] is not among the sources.
    The encoder drives it with [NextTable], [Columns], [NextRow] and [Row]
    and never asks it for an error, so a reader is the sequence of tables it
    goes through, each with its columns and its rows; a row is indexed by
    column position and holds interface values. *)
Record tableData := mkTableData {
  Columns : list Column;
  Rows : list (list any)
}.

Definition Reader : Type := list tableData.

(** ** Escapers *)

Definition tab : string := String "009" "".
Definition newline : string := String "010" "".
Definition formfeed : string := String "012" "".
Definition carriageReturn : string := String "013" "".
Definition dquote : string := String "034" "".

Definition tagNameEscaper : Replacer :=
  NewReplacer
    [ (tab, "\t"); (newline, "\n"); (formfeed, "\f"); (carriageReturn, "\r");
      (",", "\,"); (" ", "\ "); ("=", "\=") ].
Definition tagValueEscaper : Replacer := tagNameEscaper.
Definition fieldNameEscaper : Replacer := tagNameEscaper.
Definition stringFieldEscaper : Replacer :=
  NewReplacer [ (dquote, "\" +:+ dquote); ("\", "\\") ].
Definition measurementEscaper : Replacer :=
  NewReplacer
    [ (tab, "\t"); (newline, "\n"); (formfeed, "\f"); (carriageReturn, "\r");
      (",", "\,"); (" ", "\ ") ].

Section Encoder.
Context {rt : Runtime}.

(** The name [%T] prints for the dynamic type of a value. *)
Definition typeName (v : any) : string :=
  match v with
  | Nil => "<nil>"
  | Int64 _ => "int64"
  | Uint64 _ => "uint64"
  | Float64 _ => "float64"
  | Bool _ => "bool"
  | Str _ => "string"
  | TimeVal _ => "time.Time"
  | Other T => T
  end.

(** ** escapeValue *)

Definition escapeValue (v : any) (escaper : Replacer) : exec string :=
  match v with
  | Int64 n => Returns (formatInt n +:+ "i")
  | Uint64 n => Returns (formatInt n +:+ "u")
  | Float64 x => Returns (formatFloat x)
  | Bool b => Returns (formatBool b)
  | Str s => Returns (Replace escaper s)
  | TimeVal t => Returns (formatInt (UnixNano t) +:+ "i")
  | _ => Panics (Errorf "unexpected value type %T" [AStr (typeName v)])
  end.

(** ** tableInfoForColumns *)

Record tableInfo := mkTableInfo {
  measurement : Z;
  field : Z;
  value : Z;
  time : Z;
  tagNames : list string;
  tagIndexes : list Z
}.

Definition setMeasurement (i : Z) (t : tableInfo) : tableInfo :=
  {| measurement := i; field := field t; value := value t; time := time t;
     tagNames := tagNames t; tagIndexes := tagIndexes t |}.
Definition setField (i : Z) (t : tableInfo) : tableInfo :=
  {| measurement := measurement t; field := i; value := value t; time := time t;
     tagNames := tagNames t; tagIndexes := tagIndexes t |}.
Definition setValue (i : Z) (t : tableInfo) : tableInfo :=
  {| measurement := measurement t; field := field t; value := i; time := time t;
     tagNames := tagNames t; tagIndexes := tagIndexes t |}.
Definition setTime (i : Z) (t : tableInfo) : tableInfo :=
  {| measurement := measurement t; field := field t; value := value t; time := i;
     tagNames := tagNames t; tagIndexes := tagIndexes t |}.
Definition addTag (name : string) (i : Z) (t : tableInfo) : tableInfo :=
  {| measurement := measurement t; field := field t; value := value t; time := time t;
     tagNames := (tagNames t ++ [name])%list; tagIndexes := (tagIndexes t ++ [i])%list |}.

(** The [for i, col := range cols] loop, [i] being the index of the head of
    [cols]. *)
Fixpoint columnsLoop (i : Z) (cols : list Column) (info : tableInfo)
    : tableInfo + error :=
  match cols with
  | nil => inl info
  | col :: cols' =>
      if (Name col =? "_measurement")%string then
        if negb (Type_ col =? "string")%string then
          inr (Errorf "_measurement column has wrong type, got %q want %q"
                 [AStr (Type_ col); AStr "string"])
        else columnsLoop (i + 1) cols' (setMeasurement i info)
      else if (Name col =? "_field")%string then
        if negb (Type_ col =? "string")%string then
          inr (Errorf "_field column has wrong type, got %q want %q"
                 [AStr (Type_ col); AStr "string"])
        else columnsLoop (i + 1) cols' (setField i info)
      else if (Name col =? "_value")%string then
        columnsLoop (i + 1) cols' (setValue i info)
      else if (Name col =? "_time")%string then
        if negb (HasPrefix (Type_ col) "dateTime:") then
          inr (Errorf "_time column has wrong type, got %q want %q"
                 [AStr (Type_ col); AStr "dateTime:*"])
        else columnsLoop (i + 1) cols' (setTime i info)
      else if (Name col =? "")%string then
        columnsLoop (i + 1) cols' info
      else
        columnsLoop (i + 1) cols' (addTag (TrimPrefix (Name col) "_") i info)
  end.

Definition tableInfoForColumns (cols : list Column) : tableInfo + error :=
  match columnsLoop 0 cols
          {| measurement := -1; field := -1; value := -1; time := -1;
             tagNames := nil; tagIndexes := nil |} with
  | inr e => inr e
  | inl info =>
      if measurement info =? -1 then
        inr (Errorf "no _measurement column found in table" nil)
      else if field info =? -1 then
        inr (Errorf "no _field column found in table" nil)
      else if value info =? -1 then
        inr (Errorf "no _value column found in table" nil)
      else if time info =? -1 then
        inr (Errorf "no _time column found in table" nil)
      else inl info
  end.

(** ** writeLineProtocol *)

(** [row[i]]: an index outside the slice is a run-time panic. *)
Definition index (row : list any) (i : Z) : exec any :=
  if i <? 0 then Panics (LibError "runtime" "index out of range")
  else
    match row !! Z.to_nat i with
    | Some v => Returns v
    | None => Panics (LibError "runtime" "index out of range")
    end.

(** The loop over [info.tagNames], with [info.tagIndexes[i]] beside it; the
    two slices grow together and have one length. *)
Fixpoint writeTags (row : list any) (names : list string) (indexes : list Z)
    (line : string) : exec string :=
  match names, indexes with
  | tagName :: names', i :: indexes' =>
      k ← escapeValue (Str tagName) tagNameEscaper;
      x ← index row i;
      v ← escapeValue x tagValueEscaper;
      writeTags row names' indexes' (line +:+ "," +:+ k +:+ "=" +:+ v)
  | _, _ => Returns line
  end.

(** The [switch v := row[info.value].(type)]: the text of the field value,
    or the error of the [default] case. *)
Definition fieldValue (v : any) : string + error :=
  match v with
  | Int64 n => inl (formatInt n +:+ "i")
  | Uint64 n => inl (formatInt n +:+ "u")
  | Float64 x => inl (formatFloat x)
  | Str s => inl (dquote +:+ Replace stringFieldEscaper s +:+ dquote)
  | Bool b => inl (formatBool b)
  | TimeVal t => inl (formatInt (UnixNano t))
  | _ => inr (Errorf "unexpected value type in _value %T" [AStr (typeName v)])
  end.

(** [row[info.time].(time.Time)]: the assertion panics on any other type. *)
Definition assertTime (v : any) : exec Time :=
  match v with
  | TimeVal t => Returns t
  | _ => Panics (LibError "runtime" "interface conversion")
  end.

(** The body of the [for r.NextRow()] loop: the line for one row, or the
    error the loop returns with. *)
Definition writeRow (info : tableInfo) (row : list any) : exec (string + error) :=
  m ← index row (measurement info);
  line ← escapeValue m measurementEscaper;
  line ← writeTags row (tagNames info) (tagIndexes info) line;
  f ← index row (field info);
  fname ← escapeValue f fieldNameEscaper;
  let line := line +:+ " " +:+ fname +:+ "=" in
  v ← index row (value info);
  match fieldValue v with
  | inr e => Returns (inr e)
  | inl text =>
      let line := line +:+ text +:+ " " in
      tv ← index row (time info);
      t ← assertTime tv;
      Returns (inl (line +:+ formatInt (UnixNano t) +:+ newline))
  end.

(** What a run leaves behind: the bytes flushed to [w] (the deferred
    [Flush] runs on return and on panic alike) and how the run ended. *)
Fixpoint writeRows (info : tableInfo) (rows : list (list any)) (output : string)
    : string * exec (option error) :=
  match rows with
  | nil => (output, Returns None)
  | row :: rows' =>
      match writeRow info row with
      | Panics e => (output, Panics e)
      | Returns (inr e) => (output, Returns (Some e))
      | Returns (inl line) => writeRows info rows' (output +:+ line)
      end
  end.

Fixpoint writeTables (rd : Reader) (output : string) : string * exec (option error) :=
  match rd with
  | nil => (output, Returns None)
  | t :: rd' =>
      match tableInfoForColumns (Columns t) with
      | inr e =>
          (output, Returns (Some (Errorf "cannot get table info for columns: %v" [AErr e])))
      | inl info =>
          match writeRows info (Rows t) output with
          | (output', Returns None) => writeTables rd' output'
          | stopped => stopped
          end
      end
  end.

Definition writeLineProtocol (rd : Reader) : string * exec (option error) :=
  writeTables rd "".

End Encoder.

(** ** The schema convention, stated on the columns *)

Definition hasColumn (name : string) (cols : list Column) : bool :=
  existsb (fun c => (Name c =? name)%string) cols.

(** A column whose name is reserved and whose declared type is not the one
    the encoder wants; [_value] may have any type. *)
Definition mistyped (c : Column) : bool :=
  ((Name c =? "_measurement")%string && negb (Type_ c =? "string")%string)
  || ((Name c =? "_field")%string && negb (Type_ c =? "string")%string)
  || ((Name c =? "_time")%string && negb (HasPrefix (Type_ c) "dateTime:")).

Definition required : list string := ["_measurement"; "_field"; "_value"; "_time"].

(** A column that becomes a tag: named, and not one of the four reserved
    names. *)
Definition isTag (c : Column) : bool :=
  negb ((Name c =? "_measurement")%string || (Name c =? "_field")%string
        || (Name c =? "_value")%string || (Name c =? "_time")%string
        || (Name c =? "")%string).

(** The tag columns with their positions, in column order; [i] is the
    position of the first column of [cols]. *)
Definition tagColumnsFrom (i : Z) (cols : list Column) : list (Z * Column) :=
  filter (fun p => isTag (snd p) = true) (imap (fun k c => (i + Z.of_nat k, c)) cols).

Definition tagColumns (cols : list Column) : list (Z * Column) :=
  tagColumnsFrom 0 cols.

(** The key a tag column is written under, before escaping. *)
Definition tagKey (c : Column) : string := TrimPrefix (Name c) "_".

(** What an error of [tableInfoForColumns] says: a required column is
    missing, and the error names it; or a reserved column has the wrong
    declared type, and the error names it and carries the type found. *)
Definition schemaFault (cols : list Column) (e : error) : Prop :=
  (exists name,
      In name required /\ hasColumn name cols = false
      /\ e = Errorf ("no " +:+ name +:+ " column found in table") nil)
  \/ (exists c want,
        In c cols /\ mistyped c = true
        /\ e = Errorf (Name c +:+ " column has wrong type, got %q want %q")
                 [AStr (Type_ c); AStr want]).

(** What the loop over the columns computes from [info], [i] being the
    position of the first of [cols]: the error of a mistyped column; or, no
    column being mistyped, an index that is still -1 exactly for a reserved
    name that was not met, and the tags in column order. *)
Definition columnsLoopPost (i : Z) (cols : list Column) (info : tableInfo)
    (res : tableInfo + error) : Prop :=
  match res with
  | inr e =>
      exists c want,
        In c cols /\ mistyped c = true
        /\ e = Errorf (Name c +:+ " column has wrong type, got %q want %q")
                 [AStr (Type_ c); AStr want]
  | inl info' =>
      existsb mistyped cols = false
      /\ (measurement info' = -1 <->
          measurement info = -1 /\ hasColumn "_measurement" cols = false)
      /\ (field info' = -1 <-> field info = -1 /\ hasColumn "_field" cols = false)
      /\ (value info' = -1 <-> value info = -1 /\ hasColumn "_value" cols = false)
      /\ (time info' = -1 <-> time info = -1 /\ hasColumn "_time" cols = false)
      /\ tagNames info'
         = (tagNames info ++ map (fun p => tagKey (snd p)) (tagColumnsFrom i cols))%list
      /\ tagIndexes info'
         = (tagIndexes info ++ map fst (tagColumnsFrom i cols))%list
  end.

(** ** Escaping, byte by byte *)

(** The escapers of the encoder. *)
Definition escapers : list Replacer :=
  [tagNameEscaper; tagValueEscaper; fieldNameEscaper; stringFieldEscaper;
   measurementEscaper].

(** Whether the replacer [rp] rewrites the byte [c]. *)
Definition escapes (rp : Replacer) (c : ascii) : bool :=
  match firstMatch rp (String c "") with Some _ => true | None => false end.

(** The bytes that end or split a line: tab, newline, form feed and
    carriage return. *)
Definition breaksLine (c : ascii) : bool :=
  existsb (fun s => (s =? String c "")%string) [tab; newline; formfeed; carriageReturn].

(** ** Indexes and rows *)

(** The index [i] is the position in [cols] of the last column named
    [name]. *)
Definition pointsAtLast (name : string) (cols : list Column) (i : Z) : Prop :=
  0 <= i
  /\ exists c, cols !! Z.to_nat i = Some c /\ Name c = name
       /\ forall j c', (Z.to_nat i < j)%nat -> cols !! j = Some c' -> Name c' <> name.

(** A row the encoder can write under the columns [cols]: one value per
    column, each of one of the six dynamic types of the decoder, and a
    time under every column named [_time]. *)
Definition encodable (cols : list Column) (row : list any) : Prop :=
  length row = length cols
  /\ Forall (fun v => decoderKind v = true) row
  /\ forall i c v, cols !! i = Some c -> row !! i = Some v -> Name c = "_time" ->
       exists t, v = TimeVal t.

End Csv2lineprotocol.

(* ===================================================================== *)
(** * Sample inputs                                                       *)
(* ===================================================================== *)

Module Sample.
Import Go.

(** A runtime that answers as Go does on the few texts and values the
    examples below use, and reports an error (or the empty text) on any
    other: [strconv.ParseFloat] on "1.5", "Inf" and "NaN", [fmt.Sprint] on
    1.5, [time.Parse] of "2023-01-01T00:00:00Z" under RFC3339. *)
Definition sampleRuntime : Runtime :=
  {| ParseFloat := fun s =>
       if (s =? "1.5")%string then (1.5%float, None)
       else if (s =? "Inf")%string then (infinity, None)
       else if (s =? "NaN")%string then (nan, None)
       else (0%float, Some (NumError "ParseFloat" s ErrSyntax));
     formatFloat := fun x =>
       if PrimFloat.eqb x 1.5%float then "1.5" else "";
     time_Parse := fun layout s =>
       if (layout =? RFC3339)%string && (s =? "2023-01-01T00:00:00Z")%string
       then (Date 2023 1 1 0 0 0 0, None)
       else (mkTime 0 0, Some (LibError "time" "cannot parse")) |}.

(** A record delivered without error. *)
Definition rec (fields : list string) : Main.readResult := (fields, None).

(** The records of
<<
#datatype,string,long
#group,false,false
,value
m,1
m,2
>> *)
Definition specExample : list Main.readResult :=
  [ rec ["#datatype"; "string"; "long"];
    rec ["#group"; "false"; "false"];
    rec [""; "value"];
    rec ["m"; "1"];
    rec ["m"; "2"] ].

(** The same table with every row as wide as its annotation rows: the first
    field of the header row and of the data rows sits under the annotation
    keys. *)
Definition alignedExample : list Main.readResult :=
  [ rec ["#datatype"; "string"; "long"];
    rec ["#group"; "false"; "false"];
    rec [""; ""; "value"];
    rec [""; "m"; "1"];
    rec [""; "m"; "2"] ].

(** Empty text under the unnamed columns. *)
Definition blankExample : list Main.readResult :=
  [ rec ["#datatype"; "string"; "long"];
    rec ["#group"; "false"; "false"];
    rec [""; ""; "value"];
    rec [""; ""; "1"];
    rec [""; ""; "2"] ].

(** A header row wider than the annotation rows before it, on line 3. *)
Definition wideHeader : list Main.readResult :=
  [ rec ["#datatype"; "string"; "long"; "double"];
    rec ["#group"; "false"; "false"; "false"];
    rec [""; "a"; "b"; "c"; "d"] ].

(** A default that does not convert to its column's type, on line 2. *)
Definition badDefault : list Main.readResult :=
  [ rec ["#datatype"; "long"; "long"];
    rec ["#default"; ""; "x"];
    rec [""; "a"; "b"];
    rec [""; "1"; "2"] ].

(** A data row narrower than its header, on line 2. *)
Definition shortRow : list Main.readResult :=
  [ rec ["a"; "b"];
    rec ["1"] ].

(** Two tables with different schemas in one stream. *)
Definition twoTables : list Main.readResult :=
  [ rec ["#datatype"; "string"; "long"];
    rec ["#default"; ""; "7"];
    rec [""; "host"; "n"];
    rec [""; "a"; "1"];
    rec [""; "b"; ""];
    rec ["#datatype"; "boolean"];
    rec [""; "ok"];
    rec [""; "true"] ].

Definition secondTable : list Main.readResult := drop 5 twoTables.

(** The text of three lines
<<
a,b

1
>>
    a header row, an empty line, and a data row of one field on line 3. *)
Definition blankLineInput : string :=
  "a,b" +:+ String "010" (String "010" ("1" +:+ String "010" "")).

Definition col (name typ : string) : Csv2lineprotocol.Column :=
  {| Main.Index := 0; Main.Name := name; Main.Group := false;
     Main.Default := Nil; Main.Type_ := typ |}.

(** The table of the line-protocol example: one row
    [cpu, temp, 1.5, 2023-01-01T00:00:00Z, a]. *)
Definition cpuTable : Csv2lineprotocol.tableData :=
  {| Csv2lineprotocol.Columns :=
       [ col "_measurement" "string"; col "_field" "string";
         col "_value" "double"; col "_time" "dateTime:RFC3339";
         col "host" "tag" ];
     Csv2lineprotocol.Rows :=
       [ [ Str "cpu"; Str "temp"; Float64 1.5%float;
           TimeVal (Date 2023 1 1 0 0 0 0); Str "a" ] ] |}.

(** Columns whose names start with underscores, between the reserved ones,
    and a table of one row over them. *)
Definition underscoreColumns : list Csv2lineprotocol.Column :=
  [ col "_measurement" "string"; col "_foo" "string"; col "_field" "string";
    col "__foo" "long"; col "_value" "long"; col "" "string";
    col "host" "tag"; col "_time" "dateTime:RFC3339" ].

Definition underscoreTable : Csv2lineprotocol.tableData :=
  {| Csv2lineprotocol.Columns := underscoreColumns;
     Csv2lineprotocol.Rows :=
       [ [ Str "m"; Str "x"; Str "f"; Int64 7; Int64 1; Str "skipped";
           Str "h"; TimeVal (Date 2023 1 1 0 0 0 0) ] ] |}.

End Sample.

(* ===================================================================== *)
(** * Facts about the runtime model                                       *)
(* ===================================================================== *)

Module GoFacts.
Import Go.

Lemma wrap64_succ (a : Z) : wrap64 (wrap64 a + 1) = wrap64 (a + 1).
Proof.
  unfold wrap64.
  replace ((a + 2 ^ 63) mod 2 ^ 64 - 2 ^ 63 + 1 + 2 ^ 63)
    with ((a + 2 ^ 63) mod 2 ^ 64 + 1) by lia.
  rewrite Zplus_mod_idemp_l. do 2 f_equal. lia.
Qed.

Lemma wrap64_of_nat_S (n : nat) :
  wrap64 (wrap64 (Z.of_nat n) + 1) = wrap64 (Z.of_nat (S n)).
Proof. rewrite wrap64_succ. f_equal. lia. Qed.

Lemma substring_all (s : string) : substring 0 (String.length s) s = s.
Proof. induction s as [|c s IH]; simpl; [reflexivity | by rewrite IH]. Qed.

(** Stripping ["_"] takes exactly one leading underscore away. *)
Lemma TrimPrefix_underscore (s : string) : TrimPrefix (String "_" s) "_" = s.
Proof.
  unfold TrimPrefix, HasPrefix. simpl.
  destruct s; simpl; [reflexivity |].
  by rewrite substring_all.
Qed.

Lemma append_cons (x : ascii) (a b : string) :
  String x a +:+ b = String x (a +:+ b).
Proof. reflexivity. Qed.

Lemma append_assoc (a b c : string) : (a +:+ b) +:+ c = a +:+ (b +:+ c).
Proof. induction a as [|x a IH]; [done |]. by rewrite !append_cons, IH. Qed.

Lemma append_nil_r (a : string) : a +:+ "" = a.
Proof. induction a as [|x a IH]; [done |]. by rewrite append_cons, IH. Qed.

Lemma TrimPrefix_no_prefix (s p : string) :
  HasPrefix s p = false -> TrimPrefix s p = s.
Proof. intros H. unfold TrimPrefix. by rewrite H. Qed.

End GoFacts.

(* ===================================================================== *)
(** * Facts about the decoder                                             *)
(* ===================================================================== *)

Module MainFacts.
Import Go GoFacts Main Sample.

(** ** Peek and Read *)

Lemma Peek_peeked (cr : csvReader) :
  hasPeeked cr = true -> Peek cr = ((row cr, err cr), cr).
Proof. intros H. unfold Peek. by rewrite H. Qed.

Lemma Peek_state (cr : csvReader) :
  hasPeeked (snd (Peek cr)) = true
  /\ (row (snd (Peek cr)), err (snd (Peek cr))) = fst (Peek cr).
Proof.
  unfold Peek. destruct (hasPeeked cr) eqn:E; simpl; [done |].
  by destruct (nth _ _ _) as [??].
Qed.

Lemma Peek_Peek (cr : csvReader) : Peek (snd (Peek cr)) = Peek cr.
Proof.
  destruct (Peek_state cr) as [Hp Hm].
  rewrite (Peek_peeked _ Hp), Hm. by destruct (Peek cr).
Qed.

Lemma Read_peeked (cr : csvReader) :
  hasPeeked cr = true ->
  Read cr = ((row cr, err cr),
             {| hasPeeked := false; row := row cr; err := err cr;
                r := r cr; line := line cr |}).
Proof. intros H. unfold Read. by rewrite H. Qed.

Lemma Peek_results (cr : csvReader) :
  results (r (snd (Peek cr))) = results (r cr).
Proof.
  unfold Peek. destruct (hasPeeked cr); [done |]. cbn.
  by destruct (nth _ _ _) as [??].
Qed.

Lemma Read_results (cr : csvReader) :
  results (r (snd (Read cr))) = results (r cr).
Proof. unfold Read. by destruct (hasPeeked cr). Qed.

Lemma Read_Peek (cr : csvReader) : fst (Read (snd (Peek cr))) = fst (Peek cr).
Proof.
  destruct (Peek_state cr) as [Hp Hm]. by rewrite (Read_peeked _ Hp), Hm.
Qed.

(** C6: Peek is idempotent. After one Peek, any number of further Peeks
    return the same row and error and leave the reader as it is; a Read
    after a Peek returns exactly the peeked row and error and neither
    advances the underlying reader nor counts a line; and the line counter
    goes up by one exactly when the underlying reader is asked for a row,
    so Peek-then-Read and a plain Read deliver the same row and end with
    the same line count and the same position in the input. *)
Theorem Peek_idempotent_line_once (cr : csvReader) :
  let res := fst (Peek cr) in
  let cr1 := snd (Peek cr) in
  (forall n, Peek (Nat.iter n (fun s => snd (Peek s)) cr1) = (res, cr1))
  /\ fst (Read cr1) = res
  /\ line (snd (Read cr1)) = line cr1
  /\ r (snd (Read cr1)) = r cr1
  /\ hasPeeked (snd (Read cr1)) = false
  /\ line cr1 = (if hasPeeked cr then line cr else wrap64 (line cr + 1))
  /\ pos (r cr1) = (if hasPeeked cr then pos (r cr) else S (pos (r cr)))
  /\ results (r cr1) = results (r cr)
  /\ fst (Read cr) = res
  /\ line (snd (Read cr)) = line cr1
  /\ r (snd (Read cr)) = r cr1
  /\ hasPeeked (snd (Read cr)) = false.
Proof.
  intros res cr1.
  assert (Hn : forall n, Nat.iter n (fun s => snd (Peek s)) cr1 = cr1).
  { induction n as [|n IH]; simpl; [done |].
    rewrite IH. subst cr1. by rewrite Peek_Peek. }
  split.
  { intros n. rewrite Hn. subst cr1 res. rewrite Peek_Peek. by destruct (Peek cr). }
  subst res cr1. unfold Read, Peek.
  destruct cr as [hp rw er [rs p] ln]; destruct hp; simpl;
    try destruct (nth p rs _) as [??]; simpl; repeat split; reflexivity.
Qed.

Section WithRuntime.
Context {rt : Runtime}.

(** ** convertToType *)

(** C4: with declared type [double], the converter returns an error exactly
    when the 64-bit float parse fails (and then that very error); when the
    parse succeeds with an infinity or a NaN it returns the original text
    as a string; otherwise it returns the parsed float64. A float64 it
    returns is therefore never infinite or NaN. *)
Theorem convertToType_double (s : string) :
  (is_Some (snd (convertToType s "double")) <-> is_Some (snd (ParseFloat s)))
  /\ (forall x e, ParseFloat s = (x, Some e) ->
        convertToType s "double" = (Nil, Some e))
  /\ (forall x, ParseFloat s = (x, None) ->
        convertToType s "double"
        = (if IsInf x || IsNaN x then Str s else Float64 x, None))
  /\ (forall y, fst (convertToType s "double") = Float64 y ->
        IsInf y = false /\ IsNaN y = false).
Proof.
  unfold convertToType. cbn [String.eqb Ascii.eqb Bool.eqb].
  destruct (ParseFloat s) as [x [e|]] eqn:HP; cbn [fst snd].
  - split; [done |]. split; [by intros ? ? [= <- <-] |].
    split; [by intros ? [=] | by intros ? [=]].
  - assert (Hno : is_Some (@None error) <-> False)
      by (split; [intros [? ?]; discriminate | tauto]).
    destruct (IsInf x || IsNaN x) eqn:Hfin; cbn [fst snd].
    + split; [done |]. split; [by intros ? ? [=] |].
      split; [intros ? [= <-]; by rewrite Hfin | by intros ? [=]].
    + split; [done |]. split; [by intros ? ? [=] |].
      split; [intros ? [= <-]; by rewrite Hfin |].
      intros y [= <-]. by apply orb_false_elim in Hfin.
Qed.

(** Every value a successful conversion returns has one of the six dynamic
    types of the decoder. *)
Lemma convertToType_kind (s typ : string) (v : any) :
  convertToType s typ = (v, None) -> decoderKind v = true.
Proof.
  unfold convertToType.
  repeat match goal with
  | |- context [if ?b then _ else _] => destruct b
  | |- context [let '(_, _) := ?p in _] => destruct p as [? [?|]]
  | |- context [match ?p with (_, _) => _ end] => destruct p as [? [?|]]
  end; intros [= <-]; reflexivity.
Qed.

(** ** The fields of a data row *)

Lemma rowFields_unnamed_step (col : column) (cols : list column)
    (val : string) (vals : list string) (m : gmap string any) :
  Name col = "" -> Default col = Nil ->
  rowFields (col :: cols) (val :: vals) m =
    if (val =? "")%string then rowFields cols vals m
    else
      match convertToType val (Type_ col) with
      | (_, Some _) => inr (val, Type_ col)
      | (x, None) => rowFields cols vals (<[ "" := x ]> m)
      end.
Proof.
  intros HN HD. cbn [rowFields]. rewrite HN, HD. cbn [isNil negb andb].
  destruct (val =? "")%string; reflexivity.
Qed.

(** The empty key is absent from a decoded row exactly when every unnamed
    column has no default and empty text in that row. *)
Lemma rowFields_empty_key (cols : list column) :
  forall (vals : list string) (m0 m : gmap string any),
    rowFields cols vals m0 = inl m ->
    (m !! "" = None <->
     m0 !! "" = None
     /\ forall i col val, cols !! i = Some col -> vals !! i = Some val ->
          Name col = "" -> val = "" /\ Default col = Nil).
Proof.
  induction cols as [|col cols IH]; intros vals m0 m H.
  { cbn in H. injection H as <-. split; [intros ?; split; [done |] | tauto].
    intros i ? ? Hc. by rewrite lookup_nil in Hc. }
  destruct vals as [|val vals].
  { cbn in H. injection H as <-. split; [intros ?; split; [done |] | tauto].
    intros i ? ? _ Hv. by rewrite lookup_nil in Hv. }
  cbn [rowFields] in H.
  assert (Hshift : forall P : column -> string -> Prop,
    (forall i c v, (col :: cols) !! i = Some c -> (val :: vals) !! i = Some v -> P c v)
    <-> P col val /\ forall i c v, cols !! i = Some c -> vals !! i = Some v -> P c v).
  { intros P. split.
    - intros HP. split; [by apply (HP O) | intros i c v ? ?; by apply (HP (S i))].
    - intros [H0 HS] [|i] c v Hc Hv; cbn in Hc, Hv; [by simplify_eq | by eapply HS]. }
  rewrite (Hshift (fun c v => Name c = "" -> v = "" /\ Default c = Nil)).
  assert (Hn : isNil (Default col) = true <-> Default col = Nil)
    by (destruct (Default col); cbn; split; congruence).
  destruct (String.eqb_spec val "") as [Hval|Hval];
    destruct (String.eqb_spec (Name col) "") as [Hname|Hname];
    destruct (isNil (Default col)) eqn:Hnil;
    cbn [negb andb] in H;
    try (destruct (convertToType val (Type_ col)) as [x [e|]]; [discriminate |]);
    apply IH in H; rewrite H; clear H IH Hshift;
    rewrite ?Hname, ?lookup_insert_eq, ?lookup_insert_ne by done;
    intuition (congruence || eauto).
Qed.

(** ** The loops that walk a row and the columns in step

    The source indexes [cols] by the position in the row, after checking
    that both have one length; these are the loops below read by index. *)

Lemma checkedColumns_length (cols : list column) (rec : list string) (ln : Z)
    (cols1 : list column) :
  checkedColumns cols rec ln = inl cols1 ->
  length cols1 = length rec /\ rec <> nil.
Proof.
  unfold checkedColumns. destruct cols as [|c cols].
  - destruct rec as [|f rec]; cbn; [discriminate |].
    intros [= <-]. cbn. by rewrite length_replicate.
  - destruct (Nat.eqb_spec (length rec) (length (c :: cols))) as [Hl|]; cbn [negb];
      [| discriminate].
    intros [= <-]. split; [done |]. intros ->. discriminate.
Qed.

Lemma assignAll_length (f : string -> column -> column) (cols : list column) :
  forall vals, length (assignAll f cols vals) = length cols.
Proof.
  induction cols as [|c cols IH]; intros [|v vals]; cbn; try done. by rewrite IH.
Qed.

(** [cols[i] = f(row[i], cols[i])] at every index of the row. *)
Lemma assignAll_lookup (f : string -> column -> column) (cols : list column) :
  forall vals i c v,
    cols !! i = Some c -> vals !! i = Some v ->
    assignAll f cols vals !! i = Some (f v c).
Proof.
  induction cols as [|c0 cols IH]; intros [|v0 vals] [|i] c v Hc Hv;
    cbn in *; try discriminate.
  - by simplify_eq.
  - by apply IH.
Qed.

(** From index 1 on, and nothing at index 0. *)
Lemma assignFrom1_lookup (f : string -> column -> column)
    (cols : list column) (vals : list string) (i : nat) (c : column) (v : string) :
  cols !! i = Some c -> vals !! i = Some v ->
  assignFrom1 f cols vals !! i = Some (if i is O then c else f v c).
Proof.
  destruct cols as [|c0 cols], vals as [|v0 vals], i as [|i]; cbn;
    try discriminate; try done.
  apply assignAll_lookup.
Qed.

(** ** The reader's bookkeeping *)

Lemma tracks_newReader (input : list readResult) : tracks (newReader input).
Proof. split; [reflexivity | discriminate]. Qed.

Lemma Peek_tracks (cr : csvReader) : tracks cr -> tracks (snd (Peek cr)).
Proof.
  intros [Hl Hp]. unfold Peek.
  destruct cr as [hp rw er [rs p] ln]; cbn in *. destruct hp; [by split |].
  destruct (nth p rs _) as [rec e] eqn:Hn. cbn. split; cbn.
  - rewrite Hl. apply wrap64_of_nat_S.
  - intros _. split; [lia |]. unfold nthResult. cbn.
    by rewrite Nat.sub_0_r.
Qed.

Lemma Read_tracks (cr : csvReader) : tracks cr -> tracks (snd (Read cr)).
Proof.
  intros [Hl Hp]. unfold Read.
  destruct cr as [hp rw er [rs p] ln]; cbn in *. destruct hp; cbn.
  - split; [done | discriminate].
  - split; cbn; [| discriminate]. rewrite Hl. apply wrap64_of_nat_S.
Qed.

(** Right after a [Peek], the peeked result is the one the line counter
    points at. *)
Lemma Peek_fetched (cr : csvReader) (rec : list string) (e : option error)
    (cr1 : csvReader) :
  tracks cr -> Peek cr = ((rec, e), cr1) ->
  hasPeeked cr1 = true
  /\ (1 <= pos (r cr1))%nat
  /\ nthResult (results (r cr1)) (pos (r cr1)) = (rec, e)
  /\ line cr1 = wrap64 (Z.of_nat (pos (r cr1)))
  /\ results (r cr1) = results (r cr).
Proof.
  intros Ht HP.
  pose proof (Peek_tracks cr Ht) as [Hl Hp].
  pose proof (Peek_state cr) as [Hs Hm].
  pose proof (Peek_results cr) as Hr.
  rewrite HP in *. cbn [fst snd] in *.
  destruct (Hp Hs) as [? Hn]. rewrite Hn. by repeat split.
Qed.

Lemma Read_after_Peek (cr1 : csvReader) :
  hasPeeked cr1 = true ->
  hasPeeked (snd (Read cr1)) = false
  /\ line (snd (Read cr1)) = line cr1
  /\ r (snd (Read cr1)) = r cr1.
Proof. intros H. by rewrite (Read_peeked _ H). Qed.

Lemma Peek_remaining (cr : csvReader) :
  (remaining (snd (Peek cr)) <= remaining cr)%nat.
Proof.
  unfold Peek, remaining.
  destruct cr as [hp rw er [rs p] ln]; cbn. destruct hp; cbn; [lia |].
  destruct (nth p rs _) as [rec e] eqn:Hn. cbn.
  destruct e; [lia |].
  destruct (decide (p < length rs)%nat); [lia |].
  rewrite nth_overflow in Hn by lia. discriminate.
Qed.

Lemma Read_remaining (cr : csvReader) :
  (remaining (snd (Read cr)) <= remaining cr)%nat.
Proof.
  unfold Read, remaining.
  destruct cr as [hp rw er [rs p] ln]; cbn. destruct hp; cbn; [| lia].
  destruct er; lia.
Qed.

(** A record that was peeked and then read is one result fewer to come. *)
Lemma consume_remaining (cr : csvReader) (rec : list string) (cr1 : csvReader) :
  Peek cr = ((rec, None), cr1) ->
  (S (remaining (snd (Read cr1))) <= remaining cr)%nat.
Proof.
  unfold Peek, Read, remaining.
  destruct cr as [hp rw er [rs p] ln]; cbn. destruct hp; cbn.
  - intros [= -> -> <-]. cbn. lia.
  - destruct (nth p rs _) as [rec' e] eqn:Hn. intros [= -> -> <-]. cbn.
    destruct (decide (p < length rs)%nat); [lia |].
    rewrite nth_overflow in Hn by lia. discriminate.
Qed.

Lemma nth_drop_next (l : list readResult) (p : nat) :
  nth p l (nil, Some EOF) = nextResult (drop p l)
  /\ drop (S p) l = tail (drop p l).
Proof.
  revert p. induction l as [|x l IH]; intros [|p]; cbn; done.
Qed.

(** What [Peek] and [Read] deliver depends on the results to come only. *)
Lemma Peek_upcoming (cr : csvReader) :
  fst (Peek cr) = nextResult (upcoming cr)
  /\ upcoming (snd (Peek cr)) = nextResult (upcoming cr) :: tail (upcoming cr).
Proof.
  unfold Peek, upcoming.
  destruct cr as [hp rw er [rs p] ln]; cbn. destruct hp; cbn; [done |].
  destruct (nth_drop_next rs p) as [Hn Hd].
  destruct (nth p rs _) as [rec e]. cbn. by rewrite Hd, <- Hn.
Qed.

Lemma Read_upcoming (cr : csvReader) :
  fst (Read cr) = nextResult (upcoming cr)
  /\ upcoming (snd (Read cr)) = tail (upcoming cr).
Proof.
  unfold Read, upcoming.
  destruct cr as [hp rw er [rs p] ln]; cbn. destruct hp; cbn; [done |].
  destruct (nth_drop_next rs p) as [Hn Hd].
  destruct (nth p rs _) as [rec e]. cbn. by rewrite Hd, <- Hn.
Qed.

Lemma upcoming_newReader (input : list readResult) :
  upcoming (newReader input) = input.
Proof. unfold upcoming. cbn. by rewrite drop_0. Qed.

(** ** readTableRows *)

(** One turn of the loop of [readTableRows], by what [Peek] delivers. *)
Lemma readTableRows_loop_step (fuel : nat) (cols : list column)
    (rows : list (gmap string any)) (cr : csvReader) :
  readTableRows_loop (S fuel) cols rows cr =
    match Peek cr with
    | ((_, Some _), cr1) => Some ((rows, None), cr1)
    | ((rec, None), cr1) =>
        if startsTable rec then Some ((rows, None), cr1)
        else if negb (length rec =? length cols)%nat then
          Some ((rows, Some (Errorf "inconsistent number of columns at line %d"
                               [AInt (line (snd (Read cr1)))])), snd (Read cr1))
        else
          match rowFields cols rec ∅ with
          | inr (val, typ) =>
              Some ((rows, Some (Errorf "cannot parse %q as type %q at line %d"
                                   [AStr val; AStr typ; AInt (line (snd (Read cr1)))])),
                    snd (Read cr1))
          | inl rowMap =>
              readTableRows_loop fuel cols (rows ++ [rowMap])%list (snd (Read cr1))
          end
    end.
Proof.
  cbn [readTableRows_loop]. destruct (Peek cr) as [[rec [e|]] cr1]; [done |].
  destruct (startsTable rec); [done |].
  destruct (negb _); [done |].
  by destruct (rowFields cols rec ∅) as [m|[val typ]].
Qed.

(** Whatever [Peek] and [Read] keep, the loop keeps. *)
Lemma readTableRows_loop_keeps (P : csvReader -> Prop) :
  (forall c, P c -> P (snd (Peek c))) -> (forall c, P c -> P (snd (Read c))) ->
  forall fuel cols rows cr res cr',
    P cr -> readTableRows_loop fuel cols rows cr = Some (res, cr') -> P cr'.
Proof.
  intros HPeek HRead. induction fuel as [|fuel IH]; intros cols rows cr res cr' HP H;
    [discriminate |].
  rewrite readTableRows_loop_step in H.
  specialize (HPeek cr HP). destruct (Peek cr) as [[rec [e|]] cr1]; cbn in HPeek.
  { by injection H as <- <-. }
  specialize (HRead cr1 HPeek).
  destruct (startsTable rec); [by injection H as <- <- |].
  destruct (negb _); [by injection H as <- <- |].
  destruct (rowFields cols rec ∅) as [m|[val typ]]; [| by injection H as <- <-].
  exact (IH _ _ _ _ _ HRead H).
Qed.

(** The rows decoded so far are never dropped. *)
Lemma readTableRows_loop_rows (fuel : nat) :
  forall cols rows cr rows' e cr',
    readTableRows_loop fuel cols rows cr = Some ((rows', e), cr') ->
    (length rows <= length rows')%nat.
Proof.
  induction fuel as [|fuel IH]; intros cols rows cr rows' e cr' H; [discriminate |].
  rewrite readTableRows_loop_step in H.
  destruct (Peek cr) as [[rec [e0|]] cr1]; [injection H as <- <- <-; lia |].
  destruct (startsTable rec); [injection H as <- <- <-; lia |].
  destruct (negb _); [injection H as <- <- <-; lia |].
  destruct (rowFields cols rec ∅) as [m|[val typ]]; [| injection H as <- <- <-; lia].
  apply IH in H. rewrite length_app in H. cbn in H. lia.
Qed.

(** The loop returns: one unit of fuel per result still to come, and one
    more, is enough. *)
Lemma readTableRows_loop_total (fuel : nat) :
  forall cols rows cr,
    (remaining cr < fuel)%nat -> is_Some (readTableRows_loop fuel cols rows cr).
Proof.
  induction fuel as [|fuel IH]; intros cols rows cr Hrem; [lia |].
  rewrite readTableRows_loop_step.
  destruct (Peek cr) as [[rec [e|]] cr1] eqn:HP; [done |].
  destruct (startsTable rec); [done |].
  destruct (negb _); [done |].
  destruct (rowFields cols rec ∅) as [m|[val typ]]; [| done].
  apply IH. pose proof (consume_remaining cr rec cr1 HP). lia.
Qed.

Lemma readTableRows_total (cr : csvReader) (cols : list column) :
  is_Some (readTableRows cr cols).
Proof. apply readTableRows_loop_total. lia. Qed.

(** More fuel does not change what the loop returns. *)
Lemma readTableRows_loop_fuel (fuel : nat) :
  forall cols rows cr x,
    readTableRows_loop fuel cols rows cr = Some x ->
    forall fuel', (fuel <= fuel')%nat -> readTableRows_loop fuel' cols rows cr = Some x.
Proof.
  induction fuel as [|fuel IH]; intros cols rows cr x H fuel' Hle; [discriminate |].
  destruct fuel' as [|fuel']; [lia |].
  rewrite readTableRows_loop_step in *.
  destruct (Peek cr) as [[rec [e|]] cr1]; [done |].
  destruct (startsTable rec); [done |].
  destruct (negb _); [done |].
  destruct (rowFields cols rec ∅) as [m|[val typ]]; [| done].
  apply (IH _ _ _ _ H). lia.
Qed.

(** The field-count check of [readTableRows], in terms of the records the
    underlying reader delivers: when the table decoder consumes a data row
    (a record, delivered without error, whose first field does not start
    with [#]), the reader's line counter is the 1-based number of that
    record among the results delivered; if the row's field count differs
    from the column count the decoder fails at once with the error
    "inconsistent number of columns at line N" for that very N; if the
    counts are equal that error is not raised for the row: the decoder goes
    on to convert the fields, and either fails with a conversion error or
    appends the row and continues. *)
Theorem readTableRows_field_count (fuel : nat) (cols : list column)
    (rows : list (gmap string any)) (cr : csvReader)
    (rec : list string) (cr1 : csvReader) :
  tracks cr -> Peek cr = ((rec, None), cr1) -> startsTable rec = false ->
  let cr2 := snd (Read cr1) in
  let n := pos (r cr2) in
  let countError :=
    Errorf "inconsistent number of columns at line %d" [AInt (wrap64 (Z.of_nat n))] in
  (1 <= n)%nat
  /\ nthResult (results (r cr)) n = (rec, None)
  /\ line cr2 = wrap64 (Z.of_nat n)
  /\ (length rec <> length cols ->
      readTableRows_loop (S fuel) cols rows cr = Some ((rows, Some countError), cr2))
  /\ (length rec = length cols ->
      readTableRows_loop (S fuel) cols rows cr =
        match rowFields cols rec ∅ with
        | inr (val, typ) =>
            Some ((rows, Some (Errorf "cannot parse %q as type %q at line %d"
                                 [AStr val; AStr typ; AInt (wrap64 (Z.of_nat n))])), cr2)
        | inl rowMap => readTableRows_loop fuel cols (rows ++ [rowMap])%list cr2
        end)
  /\ (length rec = length cols ->
      readTableRows_loop (S fuel) cols rows cr <> Some ((rows, Some countError), cr2)).
Proof.
  intros Ht HP Hs cr2 n countError.
  destruct (Peek_fetched cr rec None cr1 Ht HP) as (Hpk & Hpos & Hnth & Hline & Hres).
  destruct (Read_after_Peek cr1 Hpk) as (_ & Hl2 & Hr2).
  assert (Hn : n = pos (r cr1)) by (subst n cr2; by rewrite Hr2).
  assert (Hline2 : line cr2 = wrap64 (Z.of_nat n)) by (subst cr2; congruence).
  assert (Heq : forall b : bool, length rec = length cols ->
            negb (length rec =? length cols)%nat = b -> b = false).
  { intros b -> <-. by rewrite Nat.eqb_refl. }
  rewrite readTableRows_loop_step, HP, Hs. fold cr2. rewrite Hline2.
  repeat split.
  - lia.
  - rewrite Hn, <- Hres. exact Hnth.
  - intros Hne. apply Nat.eqb_neq in Hne. by rewrite Hne.
  - intros Hlen. by rewrite (Heq _ Hlen eq_refl).
  - intros Hlen. rewrite (Heq _ Hlen eq_refl).
    destruct (rowFields cols rec ∅) as [m|[val typ]]; [| discriminate].
    intros H. apply readTableRows_loop_rows in H.
    rewrite length_app in H. cbn in H. lia.
Qed.

(** ** readHeader *)

(** One turn of the loop of [readHeader], by what [Peek] delivers. *)
Lemma readHeader_loop_step (fuel : nat) (cols : list column)
    (defaults : list string) (cr : csvReader) :
  readHeader_loop (S fuel) cols defaults cr =
    match Peek cr with
    | ((_, Some _), cr1) => Some ((cols, None), cr1)
    | ((rec, None), cr1) =>
        let cr2 := snd (Read cr1) in
        match checkedColumns cols rec (line cr2) with
        | inr e => Some ((nil, Some e), cr2)
        | inl cols1 =>
            if negb (HasPrefix (firstField rec) "#") then
              Some (applyDefaults (assignAll setName cols1 rec) defaults, cr2)
            else if (firstField rec =? "#datatype")%string then
              readHeader_loop fuel (assignFrom1 setType cols1 rec) defaults cr2
            else if (firstField rec =? "#group")%string then
              readHeader_loop fuel
                (assignFrom1 (fun v => setGroup (v =? "true")%string) cols1 rec)
                defaults cr2
            else if (firstField rec =? "#default")%string then
              readHeader_loop fuel cols1 rec cr2
            else readHeader_loop fuel cols1 defaults cr2
        end
    end.
Proof.
  cbn [readHeader_loop]. destruct (Peek cr) as [[rec [e|]] cr1]; reflexivity.
Qed.

(** An induction principle for the loop: a property of its outcome holds as
    soon as it holds for each way a turn can end and carries over the turns
    that continue. *)
Lemma readHeader_loop_ind
    (Q : list column -> list string -> csvReader ->
         (list column * option error) * csvReader -> Prop) :
  (forall cols defaults cr rec e cr1,
      Peek cr = ((rec, Some e), cr1) -> Q cols defaults cr ((cols, None), cr1)) ->
  (forall cols defaults cr rec cr1 e,
      Peek cr = ((rec, None), cr1) ->
      checkedColumns cols rec (line (snd (Read cr1))) = inr e ->
      Q cols defaults cr ((nil, Some e), snd (Read cr1))) ->
  (forall cols defaults cr rec cr1 cols1,
      Peek cr = ((rec, None), cr1) ->
      checkedColumns cols rec (line (snd (Read cr1))) = inl cols1 ->
      HasPrefix (firstField rec) "#" = false ->
      Q cols defaults cr
        (applyDefaults (assignAll setName cols1 rec) defaults, snd (Read cr1))) ->
  (forall cols defaults cr rec cr1 cols1 cols2 defaults2 out,
      Peek cr = ((rec, None), cr1) ->
      checkedColumns cols rec (line (snd (Read cr1))) = inl cols1 ->
      HasPrefix (firstField rec) "#" = true ->
      Q cols2 defaults2 (snd (Read cr1)) out ->
      Q cols defaults cr out) ->
  forall fuel cols defaults cr out,
    readHeader_loop fuel cols defaults cr = Some out -> Q cols defaults cr out.
Proof.
  intros Hstop Hbad Hnames Hnext.
  induction fuel as [|fuel IH]; intros cols defaults cr out H; [discriminate |].
  rewrite readHeader_loop_step in H.
  destruct (Peek cr) as [[rec [e|]] cr1] eqn:HP.
  { injection H as <-. by eapply Hstop. }
  cbn zeta in H.
  destruct (checkedColumns cols rec _) as [cols1|e] eqn:Hc.
  2: { injection H as <-. by eapply Hbad. }
  destruct (HasPrefix (firstField rec) "#") eqn:Hk; cbn [negb] in H.
  2: { injection H as <-. by eapply Hnames. }
  repeat match type of H with
  | (if ?b then _ else _) = _ => destruct b
  end; eapply Hnext; eauto.
Qed.

Lemma readHeader_loop_keeps (P : csvReader -> Prop) :
  (forall c, P c -> P (snd (Peek c))) -> (forall c, P c -> P (snd (Read c))) ->
  forall fuel cols defaults cr res cr',
    P cr -> readHeader_loop fuel cols defaults cr = Some (res, cr') -> P cr'.
Proof.
  intros HPeek HRead fuel cols defaults cr res cr' HP H. revert HP.
  refine (readHeader_loop_ind (fun _ _ c out => P c -> P (snd out))
            _ _ _ _ fuel cols defaults cr (res, cr') H);
    clear -HPeek HRead; intros;
    match goal with HP : Peek ?c = (_, ?c1) |- _ =>
      assert (P c1)
        by (pose proof (HPeek c ltac:(assumption)) as X; by rewrite HP in X) end;
    cbn [snd]; auto.
Qed.

Lemma readHeader_loop_total (fuel : nat) :
  forall cols defaults cr,
    (remaining cr < fuel)%nat -> is_Some (readHeader_loop fuel cols defaults cr).
Proof.
  induction fuel as [|fuel IH]; intros cols defaults cr Hrem; [lia |].
  rewrite readHeader_loop_step.
  destruct (Peek cr) as [[rec [e|]] cr1] eqn:HP; [done |].
  pose proof (consume_remaining cr rec cr1 HP). cbn zeta.
  destruct (checkedColumns cols rec _) as [cols1|e]; [| done].
  repeat match goal with
  | |- is_Some (if ?b then _ else _) => destruct b
  end; first [done | apply IH; lia].
Qed.

Lemma readHeader_total (cr : csvReader) : is_Some (readHeader cr).
Proof. apply readHeader_loop_total. lia. Qed.

Lemma readHeader_loop_fuel (fuel : nat) :
  forall cols defaults cr x,
    readHeader_loop fuel cols defaults cr = Some x ->
    forall fuel', (fuel <= fuel')%nat -> readHeader_loop fuel' cols defaults cr = Some x.
Proof.
  induction fuel as [|fuel IH]; intros cols defaults cr x H fuel' Hle; [discriminate |].
  destruct fuel' as [|fuel']; [lia |].
  rewrite readHeader_loop_step in *.
  destruct (Peek cr) as [[rec [e|]] cr1]; [done |]. cbn zeta in *.
  destruct (checkedColumns cols rec _) as [cols1|e]; [| done].
  repeat match goal with
  | |- (if ?b then _ else _) = _ => destruct b
  end; first [done | apply (IH _ _ _ _ H); lia].
Qed.

(** ** readTable *)

Lemma readTable_unfold (cr : csvReader) :
  readTable cr =
    match readHeader cr with
    | None => None
    | Some ((_, Some e), cr1) => Some (inr e, cr1)
    | Some ((cols, None), cr1) =>
        match readTableRows cr1 cols with
        | None => None
        | Some ((_, Some e), cr2) => Some (inr e, cr2)
        | Some ((rows, None), cr2) =>
            Some (inl {| Columns := columnsMapFrom 0 cols ∅; Rows := rows |}, cr2)
        end
    end.
Proof.
  unfold readTable.
  destruct (readHeader cr) as [[[cols [e|]] cr1]|]; cbn [mbind option_bind];
    reflexivity.
Qed.

Lemma readTable_total (cr : csvReader) : is_Some (readTable cr).
Proof.
  rewrite readTable_unfold.
  destruct (readHeader_total cr) as [[[cols [e|]] cr1] ->]; [done |].
  destruct (readTableRows_total cr1 cols) as [[[rows [e|]] cr2] ->]; done.
Qed.

(** ** The errors of the decoder *)

Lemma checkedColumns_error (cols : list column) (rec : list string) (ln : Z)
    (e : error) :
  checkedColumns cols rec ln = inr e ->
  (rec = nil /\ e = Errorf "no columns in table header at line %d" [AInt ln])
  \/ (exists want : nat,
        want <> length rec
        /\ e = Errorf "inconsistent table header (got %d items want %d)"
                 [AInt (Z.of_nat (length rec)); AInt (Z.of_nat want)]).
Proof.
  unfold checkedColumns. destruct cols as [|c cols].
  - destruct rec; cbn; [| discriminate]. intros [= <-]. by left.
  - destruct (Nat.eqb_spec (length rec) (length (c :: cols))) as [|Hne];
      cbn [negb]; [discriminate |].
    intros [= <-]. right. exists (length (c :: cols)). split; [congruence | done].
Qed.

Lemma defaultsLoop_error (cols : list column) :
  forall passed ds cols' e,
    defaultsLoop passed cols ds = (cols', Some e) ->
    exists (d typ : string) (cause : error),
      snd (convertToType d typ) = Some cause
      /\ e = Errorf "cannot convert default value %q to type %q: %v"
               [AStr d; AStr typ; AErr cause].
Proof.
  induction cols as [|c cols IH]; intros passed ds cols' e H; [discriminate |].
  destruct ds as [|d ds]; [discriminate |]. cbn [defaultsLoop] in H.
  destruct (d =? "")%string; [by eapply IH |].
  destruct (convertToType d (Type_ c)) as [x [cause|]] eqn:Hc; [| by eapply IH].
  injection H as <- <-. exists d, (Type_ c), cause. by rewrite Hc.
Qed.

Lemma applyDefaults_error (cols : list column) (defaults : list string)
    (cols' : list column) (e : error) :
  applyDefaults cols defaults = (cols', Some e) ->
  exists (d typ : string) (cause : error),
    snd (convertToType d typ) = Some cause
    /\ e = Errorf "cannot convert default value %q to type %q: %v"
             [AStr d; AStr typ; AErr cause].
Proof.
  unfold applyDefaults. destruct defaults as [|d0 ds]; [discriminate |].
  destruct cols as [|c0 cols]; [discriminate |]. apply defaultsLoop_error.
Qed.

Lemma rowFields_error (cols : list column) :
  forall vals m val typ,
    rowFields cols vals m = inr (val, typ) ->
    exists (i : nat) (col : column),
      vals !! i = Some val /\ cols !! i = Some col /\ typ = Type_ col
      /\ is_Some (snd (convertToType val typ)).
Proof.
  induction cols as [|col cols IH]; intros vals m val typ H; [discriminate |].
  destruct vals as [|v vals]; [discriminate |]. cbn [rowFields] in H.
  assert (Hrec : forall m', rowFields cols vals m' = inr (val, typ) ->
            exists (i : nat) (c : column),
              (v :: vals) !! i = Some val /\ (col :: cols) !! i = Some c
              /\ typ = Type_ c /\ is_Some (snd (convertToType val typ))).
  { intros m' Hm. destruct (IH _ _ _ _ Hm) as (i & c & ? & ? & ? & ?).
    by exists (S i), c. }
  destruct (negb (isNil (Default col)) && (v =? "")%string); [by eapply Hrec |].
  destruct ((v =? "")%string && (Name col =? "")%string); [by eapply Hrec |].
  destruct (convertToType v (Type_ col)) as [x [e|]] eqn:Hc; [| by eapply Hrec].
  injection H as <- <-. exists O, col. rewrite Hc. by repeat split.
Qed.

(** After a row has been peeked and read, it is the last one read. *)
Lemma lastRead_consumed (cr : csvReader) (rec : list string) (cr1 : csvReader) :
  tracks cr -> Peek cr = ((rec, None), cr1) ->
  lastRead (snd (Read cr1)) (pos (r (snd (Read cr1)))) rec
  /\ results (r (snd (Read cr1))) = results (r cr)
  /\ tracks (snd (Read cr1)).
Proof.
  intros Ht HP.
  destruct (Peek_fetched cr rec None cr1 Ht HP) as (Hpk & Hpos & Hnth & Hline & Hres).
  destruct (Read_after_Peek cr1 Hpk) as (Hh & Hl2 & Hr2).
  assert (Ht1 : tracks cr1) by (pose proof (Peek_tracks cr Ht) as X; by rewrite HP in X).
  split; [| split; [by rewrite Hr2 | by apply Read_tracks]].
  unfold lastRead. rewrite Hr2, Hl2. by repeat split.
Qed.

Lemma readHeader_loop_error (fuel : nat) (cols : list column)
    (defaults : list string) (cr : csvReader)
    (cols' : list column) (e : error) (cr' : csvReader) :
  tracks cr ->
  readHeader_loop fuel cols defaults cr = Some ((cols', Some e), cr') ->
  results (r cr') = results (r cr)
  /\ exists n rec, lastRead cr' n rec /\ headerFailure rec n e.
Proof.
  intros Ht H.
  refine (readHeader_loop_ind
            (fun _ _ c out => tracks c -> forall e, snd (fst out) = Some e ->
               results (r (snd out)) = results (r c)
               /\ exists n rec, lastRead (snd out) n rec /\ headerFailure rec n e)
            _ _ _ _ fuel cols defaults cr ((cols', Some e), cr') H Ht e eq_refl);
    clear; cbn [fst snd].
  - discriminate.
  - intros cols defaults cr rec cr1 e HP Hc Ht e' [= <-].
    destruct (lastRead_consumed cr rec cr1 Ht HP) as (Hlast & Hres & _).
    split; [done |]. eexists _, rec. split; [exact Hlast |].
    destruct Hlast as (_ & _ & _ & _ & Hline). rewrite Hline in Hc.
    apply checkedColumns_error in Hc as [?|?]; [by left | right; by left].
  - intros cols defaults cr rec cr1 cols1 HP Hc Hk Ht e Hd.
    destruct (lastRead_consumed cr rec cr1 Ht HP) as (Hlast & Hres & _).
    split; [done |]. eexists _, rec. split; [exact Hlast |].
    destruct (applyDefaults _ _) as [cs oe] eqn:Ha. cbn in Hd. subst oe.
    apply applyDefaults_error in Ha. right; by right.
  - intros cols defaults cr rec cr1 cols1 cols2 defaults2 out HP Hc Hk IH Ht e He.
    destruct (lastRead_consumed cr rec cr1 Ht HP) as (_ & Hres & Ht2).
    destruct (IH Ht2 e He) as [Hr Hex]. split; [congruence | exact Hex].
Qed.

Lemma readTableRows_loop_error (fuel : nat) :
  forall cols rows cr rows' e cr',
    tracks cr ->
    readTableRows_loop fuel cols rows cr = Some ((rows', Some e), cr') ->
    results (r cr') = results (r cr)
    /\ exists n rec, lastRead cr' n rec /\ rowFailure cols rec n e.
Proof.
  induction fuel as [|fuel IH]; intros cols rows cr rows' e cr' Ht H; [discriminate |].
  rewrite readTableRows_loop_step in H.
  destruct (Peek cr) as [[rec [e0|]] cr1] eqn:HP; [discriminate |].
  destruct (startsTable rec); [discriminate |].
  destruct (lastRead_consumed cr rec cr1 Ht HP) as (Hlast & Hres & Ht2).
  pose proof Hlast as (_ & _ & _ & _ & Hline). rewrite Hline in H.
  destruct (Nat.eqb_spec (length rec) (length cols)) as [Hlen|Hlen]; cbn [negb] in H.
  - destruct (rowFields cols rec ∅) as [m|[val typ]] eqn:Hf.
    + destruct (IH _ _ _ _ _ _ Ht2 H) as [Hr Hex]. split; [congruence | exact Hex].
    + injection H as <- <- <-. split; [done |]. eexists _, rec. split; [exact Hlast |].
      right. apply rowFields_error in Hf as (i & col & ? & ? & -> & ?).
      by exists i, val, col.
  - injection H as <- <- <-. split; [done |]. eexists _, rec. split; [exact Hlast |].
    by left.
Qed.

(** Every error [readTable] returns is raised right after a record of the
    input has been read, and is an error of the header or of a data row. *)
Lemma readTable_errors (cr : csvReader) (e : error) (cr' : csvReader) :
  tracks cr -> readTable cr = Some (inr e, cr') ->
  results (r cr') = results (r cr)
  /\ exists n rec,
       lastRead cr' n rec
       /\ (headerFailure rec n e
           \/ exists cols cr1,
                readHeader cr = Some ((cols, None), cr1) /\ rowFailure cols rec n e).
Proof.
  intros Ht H. rewrite readTable_unfold in H.
  destruct (readHeader cr) as [[[cols [eh|]] cr1]|] eqn:Hh; [| | discriminate].
  - injection H as <- <-.
    destruct (readHeader_loop_error _ _ _ _ _ _ _ Ht Hh) as (Hr & n & rec & Hl & Hf).
    split; [done |]. exists n, rec. split; [done | by left].
  - assert (Ht1 : tracks cr1)
      by (eapply (readHeader_loop_keeps tracks Peek_tracks Read_tracks); eauto).
    assert (Hr1 : results (r cr1) = results (r cr)).
    { eapply (readHeader_loop_keeps (fun c => results (r c) = results (r cr)));
        [| | reflexivity | exact Hh]; intros c Hc.
      - by rewrite Peek_results.
      - by rewrite Read_results. }
    destruct (readTableRows cr1 cols) as [[[rows [er|]] cr2]|] eqn:Hrows;
      [| discriminate | discriminate].
    injection H as <- <-.
    destruct (readTableRows_loop_error _ _ _ _ _ _ _ Ht1 Hrows) as (Hr & n & rec & Hl & Hf).
    split; [congruence |]. exists n, rec. split; [done |]. right. by exists cols, cr1.
Qed.

(** ** Decoding depends on the results to come only *)

Lemma upcoming_Peek_Read (c1 c2 : csvReader) :
  upcoming c1 = upcoming c2 ->
  fst (Peek c1) = fst (Peek c2)
  /\ upcoming (snd (Peek c1)) = upcoming (snd (Peek c2))
  /\ upcoming (snd (Read (snd (Peek c1)))) = upcoming (snd (Read (snd (Peek c2)))).
Proof.
  intros Hu.
  destruct (Peek_upcoming c1) as [H1 H1'], (Peek_upcoming c2) as [H2 H2'].
  destruct (Read_upcoming (snd (Peek c1))) as [_ R1].
  destruct (Read_upcoming (snd (Peek c2))) as [_ R2].
  rewrite H1, H2, R1, R2, H1', H2', Hu. done.
Qed.

Lemma agree_same {A : Type} (x : A * option error) (c1 c2 : csvReader) :
  upcoming c1 = upcoming c2 -> agree (Some (x, c1)) (Some (x, c2)).
Proof.
  intros Hu. destruct x as [a [e|]]; cbn; (split; [done |]);
    [right; by split | left; by repeat split].
Qed.

Lemma agree_failed {A : Type} (a b : A) (e1 e2 : error) (c1 c2 : csvReader) :
  upcoming c1 = upcoming c2 ->
  agree (Some ((a, Some e1), c1)) (Some ((b, Some e2), c2)).
Proof. intros Hu. cbn. split; [done |]. right. by split. Qed.

(** The line number only shows in the error of the check. *)
Lemma checkedColumns_line (cols : list column) (rec : list string) (l1 l2 : Z) :
  match checkedColumns cols rec l1, checkedColumns cols rec l2 with
  | inl a, inl b => a = b
  | inr _, inr _ => True
  | _, _ => False
  end.
Proof.
  unfold checkedColumns. destruct cols; [destruct (_ =? _)%nat | destruct (negb _)]; done.
Qed.

Lemma readHeader_loop_sim (fuel : nat) :
  forall cols defaults c1 c2 x1,
    upcoming c1 = upcoming c2 ->
    readHeader_loop fuel cols defaults c1 = Some x1 ->
    exists x2, readHeader_loop fuel cols defaults c2 = Some x2
               /\ agree (Some x1) (Some x2).
Proof.
  induction fuel as [|fuel IH]; intros cols defaults c1 c2 x1 Hu H; [discriminate |].
  rewrite readHeader_loop_step in *.
  destruct (upcoming_Peek_Read c1 c2 Hu) as (HP & HuP & HuR).
  destruct (Peek c1) as [[rec [e|]] c1'], (Peek c2) as [[rec2 e2] c2'].
  all: cbn [fst snd] in HP, HuP, HuR; injection HP as <- <-.
  { injection H as <-. eexists. split; [reflexivity | by apply agree_same]. }
  cbn zeta in *.
  pose proof (checkedColumns_line cols rec (line (snd (Read c1')))
                (line (snd (Read c2')))) as Hc.
  destruct (checkedColumns cols rec (line (snd (Read c1')))) as [cols1|e1],
           (checkedColumns cols rec (line (snd (Read c2')))) as [cols2|e2];
    try contradiction.
  2: { injection H as <-. eexists. split; [reflexivity | by apply agree_failed]. }
  subst cols2.
  repeat match goal with
  | |- context [if ?b then _ else _] => destruct b
  end; first [by eapply IH |
    injection H as <-; eexists; split; [reflexivity | by apply agree_same]].
Qed.

Lemma readTableRows_loop_sim (fuel : nat) :
  forall cols rows c1 c2 x1,
    upcoming c1 = upcoming c2 ->
    readTableRows_loop fuel cols rows c1 = Some x1 ->
    exists x2, readTableRows_loop fuel cols rows c2 = Some x2
               /\ agree (Some x1) (Some x2).
Proof.
  induction fuel as [|fuel IH]; intros cols rows c1 c2 x1 Hu H; [discriminate |].
  rewrite readTableRows_loop_step in *.
  destruct (upcoming_Peek_Read c1 c2 Hu) as (HP & HuP & HuR).
  destruct (Peek c1) as [[rec [e|]] c1'], (Peek c2) as [[rec2 e2] c2'].
  all: cbn [fst snd] in HP, HuP, HuR; injection HP as <- <-.
  { injection H as <-. eexists. split; [reflexivity | by apply agree_same]. }
  destruct (startsTable rec).
  { injection H as <-. eexists. split; [reflexivity | by apply agree_same]. }
  destruct (negb _).
  { injection H as <-. eexists. split; [reflexivity | by apply agree_failed]. }
  destruct (rowFields cols rec ∅) as [m|[val typ]]; [by eapply IH |].
  injection H as <-. eexists. split; [reflexivity | by apply agree_failed].
Qed.

Lemma readHeader_sim (c1 c2 : csvReader) :
  upcoming c1 = upcoming c2 -> agree (readHeader c1) (readHeader c2).
Proof.
  intros Hu.
  destruct (readHeader_total c1) as [x1 H1], (readHeader_total c2) as [x2 H2].
  rewrite H1, H2. unfold readHeader in *.
  set (N := Nat.max (S (remaining c1)) (S (remaining c2))).
  apply readHeader_loop_fuel with (fuel' := N) in H1; [| lia].
  apply readHeader_loop_fuel with (fuel' := N) in H2; [| lia].
  destruct (readHeader_loop_sim N _ _ _ _ _ Hu H1) as (x2' & H2' & Ha).
  congruence.
Qed.

Lemma readTableRows_sim (c1 c2 : csvReader) (cols : list column) :
  upcoming c1 = upcoming c2 -> agree (readTableRows c1 cols) (readTableRows c2 cols).
Proof.
  intros Hu.
  destruct (readTableRows_total c1 cols) as [x1 H1],
           (readTableRows_total c2 cols) as [x2 H2].
  rewrite H1, H2. unfold readTableRows in *.
  set (N := Nat.max (S (remaining c1)) (S (remaining c2))).
  apply readTableRows_loop_fuel with (fuel' := N) in H1; [| lia].
  apply readTableRows_loop_fuel with (fuel' := N) in H2; [| lia].
  destruct (readTableRows_loop_sim N _ _ _ _ _ Hu H1) as (x2' & H2' & Ha).
  congruence.
Qed.

Lemma readTable_sim (c1 c2 : csvReader) :
  upcoming c1 = upcoming c2 -> agreeTable (readTable c1) (readTable c2).
Proof.
  intros Hu. rewrite !readTable_unfold.
  pose proof (readHeader_sim c1 c2 Hu) as Hh.
  destruct (readHeader c1) as [[[cols1 e1] c1']|], (readHeader c2) as [[[cols2 e2] c2']|];
    try contradiction.
  destruct Hh as [Hu' [(-> & -> & ->)|[[? ->] [? ->]]]]; [| exact Hu'].
  pose proof (readTableRows_sim c1' c2' cols2 Hu') as Hr.
  destruct (readTableRows c1' cols2) as [[[rows1 e1] c1'']|],
           (readTableRows c2' cols2) as [[[rows2 e2] c2'']|]; try contradiction.
  destruct Hr as [Hu'' [(-> & -> & ->)|[[? ->] [? ->]]]]; [by split | exact Hu''].
Qed.

(** C5: when the row decoder peeks a row whose first field starts with [#]
    it stops with the rows decoded so far and without consuming that row,
    which is still the next one to be peeked or read (however many data
    rows came before); and decoding a table from a reader gives exactly
    what decoding the results still to come from a fresh reader gives: the
    same table, with the same columns, types, defaults and rows, or a
    failure in both cases. Nothing of an earlier table is observed. *)
Theorem tables_are_independent :
  (forall fuel cols rows cr rec cr1,
      Peek cr = ((rec, None), cr1) -> startsTable rec = true ->
      readTableRows_loop (S fuel) cols rows cr = Some ((rows, None), cr1)
      /\ Peek cr1 = ((rec, None), cr1)
      /\ fst (Read cr1) = (rec, None))
  /\ (forall cr input,
        upcoming cr = input -> agreeTable (readTable cr) (readTable (newReader input))).
Proof.
  split.
  - intros fuel cols rows cr rec cr1 HP Hs.
    rewrite readTableRows_loop_step, HP, Hs.
    pose proof (Peek_Peek cr) as Hn. pose proof (Read_Peek cr) as HR.
    rewrite HP in Hn, HR. by repeat split.
  - intros cr input Hu. apply readTable_sim. by rewrite upcoming_newReader.
Qed.

(** ** readAll returns *)

Lemma readHeader_progress (cr : csvReader) (x : list column * option error)
    (cr1 : csvReader) :
  readHeader cr = Some (x, cr1) ->
  (remaining cr1 < remaining cr)%nat
  \/ (hasPeeked cr1 = true /\ is_Some (err cr1)).
Proof.
  unfold readHeader. rewrite readHeader_loop_step.
  destruct (Peek cr) as [[rec [e|]] c1] eqn:HP.
  - intros [= <- <-]. right. destruct (Peek_state cr) as [Hp Hm].
    rewrite HP in Hp, Hm. cbn in Hp, Hm. injection Hm as _ ->. by split.
  - pose proof (consume_remaining cr rec c1 HP) as Hlt. cbn zeta.
    assert (Hk : forall cols defaults,
      readHeader_loop (remaining cr) cols defaults (snd (Read c1)) = Some (x, cr1) ->
      (remaining cr1 <= remaining (snd (Read c1)))%nat).
    { intros cols defaults H.
      eapply (readHeader_loop_keeps (fun c => (remaining c <= remaining (snd (Read c1)))%nat));
        [| | | exact H]; [intros c Hc | intros c Hc | lia].
      - pose proof (Peek_remaining c). lia.
      - pose proof (Read_remaining c). lia. }
    intros H. left.
    destruct (checkedColumns nil rec _) as [cols1|e]; [| injection H as <- <-; lia].
    repeat match type of H with
    | (if ?b then _ else _) = _ => destruct b
    end; first [injection H as <- <-; lia | apply Hk in H; lia].
Qed.

Lemma readTableRows_keeps_remaining (cr : csvReader) (cols : list column)
    (x : list (gmap string any) * option error) (cr' : csvReader) :
  readTableRows cr cols = Some (x, cr') ->
  (remaining cr' <= remaining cr)%nat
  /\ (hasPeeked cr = true -> is_Some (err cr) -> cr' = cr).
Proof.
  intros H. split.
  - eapply (readTableRows_loop_keeps (fun c => (remaining c <= remaining cr)%nat));
      [| | | exact H]; [intros c Hc | intros c Hc | lia].
    + pose proof (Peek_remaining c). lia.
    + pose proof (Read_remaining c). lia.
  - intros Hp [e He]. unfold readTableRows in H.
    rewrite readTableRows_loop_step, (Peek_peeked _ Hp), He in H. by injection H.
Qed.

Lemma readTable_progress (cr : csvReader) (t : table) (cr' : csvReader) :
  readTable cr = Some (inl t, cr') ->
  (remaining cr' < remaining cr)%nat
  \/ (hasPeeked cr' = true /\ is_Some (err cr')).
Proof.
  rewrite readTable_unfold.
  destruct (readHeader cr) as [[[cols [e|]] c1]|] eqn:Hh; try discriminate.
  destruct (readTableRows c1 cols) as [[[rows [e|]] c2]|] eqn:Hr; try discriminate.
  intros [= <- <-].
  destruct (readTableRows_keeps_remaining _ _ _ _ Hr) as [Hle Hsame].
  destruct (readHeader_progress _ _ _ Hh) as [Hlt|[Hp He]]; [left; lia |].
  right. rewrite (Hsame Hp He). by split.
Qed.

(** [readAll] returns on every input: its loop takes at most one turn per
    result of the input, and one more. *)
Lemma readAll_loop_total (fuel : nat) :
  forall tables cr,
    (remaining cr < fuel)%nat -> is_Some (readAll_loop fuel tables cr).
Proof.
  induction fuel as [|fuel IH]; intros tables cr Hrem; [lia |].
  cbn [readAll_loop].
  destruct (readTable_total cr) as [[[t|e] c1] Ht]; rewrite Ht; cbn [mbind option_bind];
    [| done].
  destruct (Peek c1) as [[rec [e|]] c2] eqn:HP; [by destruct e |].
  apply IH.
  pose proof (Peek_remaining c1) as Hle. rewrite HP in Hle. cbn in Hle.
  destruct (readTable_progress _ _ _ Ht) as [Hlt|[Hp [e He]]]; [lia |].
  rewrite (Peek_peeked _ Hp), He in HP. discriminate.
Qed.

Lemma readAll_total (cr : csvReader) : is_Some (readAll cr).
Proof. apply readAll_loop_total. lia. Qed.

(** ** The errors of readAll *)

Lemma readTable_keeps (P : csvReader -> Prop) :
  (forall c, P c -> P (snd (Peek c))) -> (forall c, P c -> P (snd (Read c))) ->
  forall cr x cr', P cr -> readTable cr = Some (x, cr') -> P cr'.
Proof.
  intros HPeek HRead cr x cr' HP H. rewrite readTable_unfold in H.
  destruct (readHeader cr) as [[[cols [e|]] c1]|] eqn:Hh; [| | discriminate].
  - injection H as <- <-. eapply (readHeader_loop_keeps P); eauto.
  - assert (P c1) by (eapply (readHeader_loop_keeps P); eauto).
    destruct (readTableRows c1 cols) as [[[rows [e|]] c2]|] eqn:Hr;
      [| | discriminate]; injection H as <- <-;
      eapply (readTableRows_loop_keeps P); eauto.
Qed.

Lemma readAll_loop_errors (fuel : nat) :
  forall tables cr ts e cr',
    tracks cr ->
    readAll_loop fuel tables cr = Some ((ts, Some e), cr') ->
    (exists n rec, nthResult (results (r cr)) n = (rec, Some e))
    \/ (exists crk,
          tracks crk /\ results (r crk) = results (r cr)
          /\ readTable crk = Some (inr e, cr')).
Proof.
  induction fuel as [|fuel IH]; intros tables cr ts e cr' Ht H; [discriminate |].
  cbn [readAll_loop] in H.
  destruct (readTable cr) as [[[t|e0] c1]|] eqn:HT; cbn [mbind option_bind] in H;
    [| | discriminate].
  2: { injection H as <- <- <-. right. by exists cr. }
  assert (Ht1 : tracks c1)
    by (eapply (readTable_keeps tracks Peek_tracks Read_tracks); eauto).
  assert (Hr1 : results (r c1) = results (r cr)).
  { eapply (readTable_keeps (fun c => results (r c) = results (r cr)));
      [| | reflexivity | exact HT]; intros c Hc;
      [by rewrite Peek_results | by rewrite Read_results]. }
  destruct (Peek c1) as [[rec [e1|]] c2] eqn:HP.
  - destruct (Peek_fetched c1 rec (Some e1) c2 Ht1 HP) as (_ & _ & Hn & _ & Hr2).
    destruct e1; try discriminate; injection H as <- <- <-; left;
      eexists _, rec; rewrite <- Hr1, <- Hr2; exact Hn.
  - assert (Ht2 : tracks c2)
      by (pose proof (Peek_tracks c1 Ht1) as X; by rewrite HP in X).
    assert (Hr2 : results (r c2) = results (r cr))
      by (pose proof (Peek_results c1) as X; rewrite HP in X; cbn in X; congruence).
    destruct (IH _ _ _ _ _ Ht2 H) as [(n & rec' & Hn)|(crk & ? & ? & ?)].
    + left. exists n, rec'. by rewrite <- Hr2.
    + right. exists crk. split; [done | split; [congruence | done]].
Qed.

(** The errors of [readAll], as the code raises them: an error returned by
    [readAll] is an error of the underlying CSV reader, passed on as it is,
    or an error of [readTable] raised right after a record of the input
    has been read, the reader's line counter being the 1-based number of
    that record among the results delivered, and of one of five shapes. The
    two errors of the data rows, field-count mismatch and failed conversion
    of a field, and "no columns in table header" carry that counter; the
    conversion error carries the field text and the declared type as well.
    The header field-count mismatch carries the field counts got and wanted
    and not the counter; a default that does not convert carries the
    default text, the declared type and the cause, and not the counter. *)
Theorem decoding_errors (input : list readResult) (ts : list table)
    (e : error) (cr' : csvReader) :
  readAll (newReader input) = Some ((ts, Some e), cr') ->
  (exists n rec, nthResult input n = (rec, Some e))
  \/ (exists crk,
        tracks crk /\ results (r crk) = input
        /\ readTable crk = Some (inr e, cr')
        /\ results (r cr') = input
        /\ exists n rec,
             lastRead cr' n rec
             /\ (headerFailure rec n e
                 \/ exists cols cr1,
                      readHeader crk = Some ((cols, None), cr1)
                      /\ rowFailure cols rec n e)).
Proof.
  intros H.
  destruct (readAll_loop_errors _ _ _ _ _ _ (tracks_newReader input) H)
    as [Hcsv|(crk & Ht & Hr & HT)]; [by left | right].
  exists crk. cbn in Hr.
  destruct (readTable_errors crk e cr' Ht HT) as [Hr' Hex].
  split; [done | split; [done | split; [done | split; [congruence | exact Hex]]]].
Qed.

(** ** Unnamed columns *)

(** C1 (as amended): in a data row, a column with empty name and no default
    contributes no key when its field text is empty; a non-empty text is
    converted and stored under the empty key, so the empty key is absent
    from a decoded row exactly when every unnamed column has no default and
    empty text there. The input
    [#datatype,string,long / #group,false,false / ,value / m,1 / m,2] is
    rejected, its header row having 2 fields where the annotation rows have
    3; with every row as wide as the annotation rows it decodes to one
    table whose rows hold "m" under the empty key, and with empty text
    under the unnamed columns to the rows [{value:1},{value:2}]. *)
Theorem unnamed_column_keys :
  (forall col cols val vals (m : gmap string any),
      Name col = "" -> Default col = Nil ->
      rowFields (col :: cols) (val :: vals) m =
        if (val =? "")%string then rowFields cols vals m
        else
          match convertToType val (Type_ col) with
          | (_, Some _) => inr (val, Type_ col)
          | (x, None) => rowFields cols vals (<[ "" := x ]> m)
          end)
  /\ (forall cols vals (m : gmap string any),
        rowFields cols vals ∅ = inl m ->
        (m !! "" = None <->
         forall i col val, cols !! i = Some col -> vals !! i = Some val ->
           Name col = "" -> val = "" /\ Default col = Nil))
  /\ fst <$> readAll (newReader specExample)
     = Some (nil, Some (Errorf "inconsistent table header (got %d items want %d)"
                          [AInt 2; AInt 3]))
  /\ (fun x => (map Rows (fst (fst x)), snd (fst x))) <$> readAll (newReader alignedExample)
     = Some ([ [ <[ "" := Str "m" ]> {[ "value" := Int64 1 ]};
                 <[ "" := Str "m" ]> {[ "value" := Int64 2 ]} ] ], None)
  /\ (fun x => (map Rows (fst (fst x)), snd (fst x))) <$> readAll (newReader blankExample)
     = Some ([ [ {[ "value" := Int64 1 ]}; {[ "value" := Int64 2 ]} ] ], None).
Proof.
  split; [exact rowFields_unnamed_step |].
  split.
  { intros cols vals m H. rewrite (rowFields_empty_key cols vals ∅ m H).
    rewrite lookup_empty. tauto. }
  split; [| split]; vm_compute; reflexivity.
Qed.

End WithRuntime.

(** ** The theorems at sample inputs *)

#[local] Existing Instance sampleRuntime.

(** C1, counterexample: the decoder rejects the input of the
    specification's example, and on the same table with aligned rows each
    decoded row holds the text "m" under the empty key. *)
Lemma spec_example_rejected :
  fst <$> readAll (newReader specExample)
  = Some (nil, Some (Errorf "inconsistent table header (got %d items want %d)"
                       [AInt 2; AInt 3]))
  /\ (fun x => map (fun t => map (fun row => row !! "") (Rows t)) (fst (fst x)))
       <$> readAll (newReader alignedExample)
     = Some [ [ Some (Str "m"); Some (Str "m") ] ].
Proof. split; vm_compute; reflexivity. Qed.

Lemma unnamed_column_keys_witness :
  rowFields
    [ Main.mkColumn 0 "" false Nil "string"; Main.mkColumn 0 "value" false Nil "long" ]
    [ "m"; "1" ] ∅
  = inl (<[ "" := Str "m" ]> {[ "value" := Int64 1 ]}).
Proof.
  rewrite (proj1 (@unnamed_column_keys sampleRuntime)
             (Main.mkColumn 0 "" false Nil "string") _ _ _ _ eq_refl eq_refl).
  vm_compute. reflexivity.
Defined.

(** C2: two of the fatal errors of decoding carry no line number. On a
    header row of the wrong width (the offending row is on line 3)
    [readAll] fails with "inconsistent table header (got 5 items want 4)",
    and on a default that does not convert (the offending row is on line 2,
    the header ends on line 3) with "cannot convert default value": no
    operand of either error is a line number, whereas "no columns in table
    header" and the two errors of the data rows are given [r.line]. *)
Lemma header_errors_carry_no_line :
  fst <$> readAll (newReader wideHeader)
  = Some (nil, Some (Errorf "inconsistent table header (got %d items want %d)"
                       [AInt 5; AInt 4]))
  /\ carriesInt 3 (Errorf "inconsistent table header (got %d items want %d)"
                     [AInt 5; AInt 4]) = false
  /\ fst <$> readAll (newReader badDefault)
     = Some (nil, Some (Errorf "cannot convert default value %q to type %q: %v"
                          [AStr "x"; AStr "long";
                           AErr (NumError "ParseInt" "x" ErrSyntax)]))
  /\ carriesInt 2 (Errorf "cannot convert default value %q to type %q: %v"
                     [AStr "x"; AStr "long";
                      AErr (NumError "ParseInt" "x" ErrSyntax)]) = false
  /\ carriesInt 3 (Errorf "cannot convert default value %q to type %q: %v"
                     [AStr "x"; AStr "long";
                      AErr (NumError "ParseInt" "x" ErrSyntax)]) = false.
Proof. repeat split; vm_compute; reflexivity. Qed.

Lemma decoding_errors_witness :
  exists ts e cr',
    readAll (newReader shortRow) = Some ((ts, Some e), cr')
    /\ e = Errorf "inconsistent number of columns at line %d" [AInt 2]
    /\ ((exists n rec, nthResult shortRow n = (rec, Some e))
        \/ (exists crk,
              tracks crk /\ results (r crk) = shortRow
              /\ readTable crk = Some (inr e, cr')
              /\ results (r cr') = shortRow
              /\ exists n rec,
                   lastRead cr' n rec
                   /\ (headerFailure rec n e
                       \/ exists cols cr1,
                            readHeader crk = Some ((cols, None), cr1)
                            /\ rowFailure cols rec n e))).
Proof.
  eexists _, _, _. split; [vm_compute; reflexivity |]. split; [reflexivity |].
  eapply (@decoding_errors sampleRuntime shortRow). vm_compute. reflexivity.
Defined.

Lemma tables_are_independent_witness :
  exists t1 c1,
    readTable (newReader twoTables) = Some (inl t1, c1)
    /\ upcoming c1 = secondTable
    /\ agreeTable (readTable c1)
         (readTable (newReader secondTable)).
Proof.
  eexists _, _. split; [vm_compute; reflexivity |]. split; [vm_compute; reflexivity |].
  apply (proj2 (@tables_are_independent sampleRuntime)). vm_compute. reflexivity.
Defined.

Lemma readTableRows_field_count_witness :
  fst <$> readTableRows_loop 1 [zeroColumn; zeroColumn] nil
            (newReader [rec ["1"]])
  = Some (nil, Some (Errorf "inconsistent number of columns at line %d" [AInt 1])).
Proof.
  pose proof (@readTableRows_field_count sampleRuntime 0 [zeroColumn; zeroColumn] nil
                (newReader [rec ["1"]]) ["1"] _
                (tracks_newReader _) eq_refl eq_refl) as H.
  cbn zeta in H. destruct H as (_ & _ & _ & H & _).
  rewrite H; [reflexivity | discriminate].
Defined.

(** The number of a record never exceeds the number of the line it
    stands on; an empty line before it makes it smaller. *)
Lemma recordsFrom_line (lines : list string) :
  forall n k p, recordsFrom n lines !! k = Some p -> (n + k <= fst p)%nat.
Proof.
  induction lines as [|l lines IH]; intros n k p H; [done |].
  cbn [recordsFrom] in H. destruct (l =? "")%string.
  - apply IH in H. lia.
  - destruct k as [|k]; cbn in H; [injection H as <-; cbn; lia |].
    apply IH in H. lia.
Qed.

(** C7: the line the field-count error names is not the line of the row.
    On the text of three lines [a,b], an empty line, [1], the underlying
    reader delivers two records, the second standing on line 3; its one
    field under two columns makes [readAll] fail with "inconsistent number
    of columns at line 2": [r.line] has counted the records delivered, and
    the empty line yields none. *)
Lemma blank_line_shifts_line_number :
  plainText blankLineInput = true
  /\ csvRecords blankLineInput = [ (1%nat, ["a"; "b"]); (3%nat, ["1"]) ]
  /\ fst <$> readAll (newReader (csvResults blankLineInput))
     = Some (nil, Some (Errorf "inconsistent number of columns at line %d"
                          [AInt 2])).
Proof. repeat split; vm_compute; reflexivity. Qed.

End MainFacts.

(* ===================================================================== *)
(** * Facts about the line-protocol encoder                               *)
(* ===================================================================== *)

Module Csv2lineprotocolFacts.
Import Go GoFacts Csv2lineprotocol Sample.

Section WithRuntime.
Context {rt : Runtime}.

(** ** The example line *)

(** C3: the table with columns _measurement (string), _field (string),
    _value (double), _time (dateTime:RFC3339) and the tag column host, and
    the single row (cpu, temp, 1.5, 2023-01-01T00:00:00Z, a), is written as
    the line [cpu,host=a temp=1.5 1672531200000000000] and a newline, and
    nothing else, [fmt.Fprint] printing the float64 1.5 as [1.5]. *)
Theorem cpu_example_line :
  formatFloat 1.5%float = "1.5" ->
  writeLineProtocol [cpuTable]
  = ("cpu,host=a temp=1.5 1672531200000000000" +:+ newline, Returns None).
Proof.
  destruct rt as [pf ff tp]. cbn [formatFloat]. intros H.
  vm_compute. rewrite H. reflexivity.
Qed.
(** ** escapeValue *)

(** C10: every value the decoder's converter returns has one of the six
    dynamic types int64, uint64, float64, bool, string and time.Time, and
    on a value of one of these types [escapeValue] returns a string: its
    panic branch, which a nil interface or a value of any other type does
    reach, is not reached. *)
Theorem escapeValue_total (s typ : string) (v : any) (escaper : Replacer) :
  Main.convertToType s typ = (v, None) ->
  decoderKind v = true /\ exists text, escapeValue v escaper = Returns text.
Proof.
  intros H. apply MainFacts.convertToType_kind in H. split; [exact H |].
  destruct v; try discriminate; cbn; eauto.
Qed.

Lemma escapeValue_kind (v : any) (escaper : Replacer) :
  decoderKind v = true <-> exists text, escapeValue v escaper = Returns text.
Proof.
  destruct v; cbn; split; eauto; try discriminate; intros [? ?]; discriminate.
Qed.

(** ** tableInfoForColumns *)

Lemma tagColumnsFrom_cons (i : Z) (c : Column) (cols : list Column) :
  tagColumnsFrom i (c :: cols) =
    ((if isTag c then [(i, c)] else nil) ++ tagColumnsFrom (i + 1) cols)%list.
Proof.
  unfold tagColumnsFrom. cbn [imap]. rewrite filter_cons. cbn [snd].
  replace (i + Z.of_nat 0) with i by lia.
  rewrite (imap_ext _ (fun k c0 => (i + 1 + Z.of_nat k, c0)) cols).
  2: { intros k x _. cbn. f_equal. lia. }
  destruct (isTag c); [rewrite decide_True by done | rewrite decide_False by done]; done.
Qed.

Lemma hasColumn_cons (name : string) (c : Column) (cols : list Column) :
  hasColumn name (c :: cols) = (Name c =? name)%string || hasColumn name cols.
Proof. reflexivity. Qed.

Lemma columnsLoop_spec (cols : list Column) :
  forall i info, 0 <= i -> columnsLoopPost i cols info (columnsLoop i cols info).
Proof.
  induction cols as [|col cols IH]; intros i info Hi.
  { cbn. unfold tagColumnsFrom. cbn. rewrite !app_nil_r. tauto. }
  cbn [columnsLoop].
  assert (Hnext : forall info1 res,
    columnsLoopPost (i + 1) cols info1 res ->
    mistyped col = false ->
    (measurement info1 = -1 <->
       measurement info = -1 /\ (Name col =? "_measurement")%string = false) ->
    (field info1 = -1 <-> field info = -1 /\ (Name col =? "_field")%string = false) ->
    (value info1 = -1 <-> value info = -1 /\ (Name col =? "_value")%string = false) ->
    (time info1 = -1 <-> time info = -1 /\ (Name col =? "_time")%string = false) ->
    tagNames info1
      = (tagNames info ++ (if isTag col then [tagKey col] else nil))%list ->
    tagIndexes info1
      = (tagIndexes info ++ (if isTag col then [i] else nil))%list ->
    columnsLoopPost i (col :: cols) info res).
  { intros info1 [info'|e]; unfold columnsLoopPost.
    - intros (Hm & H1 & H2 & H3 & H4 & Hn & Hx) Hc M1 M2 M3 M4 Tn Tx.
      rewrite tagColumnsFrom_cons, !hasColumn_cons, !orb_false_iff.
      cbn [existsb]. rewrite Hc, Hm, Hn, Hx, Tn, Tx, !map_app, <- !app_assoc.
      destruct (isTag col); cbn; tauto.
    - intros (c & want & ? & ? & ?) _ _ _ _ _ _ _.
      exists c, want. split; [by right | done]. }
  assert (Hbad : forall want,
    mistyped col = true ->
    columnsLoopPost i (col :: cols) info
      (inr (Errorf (Name col +:+ " column has wrong type, got %q want %q")
              [AStr (Type_ col); AStr want]))).
  { intros want Hc. exists col, want. split; [by left | done]. }
  unfold mistyped, isTag in Hnext, Hbad.
  destruct (String.eqb_spec (Name col) "_measurement") as [E|N1];
    [| destruct (String.eqb_spec (Name col) "_field") as [E|N2];
       [| destruct (String.eqb_spec (Name col) "_value") as [E|N3];
          [| destruct (String.eqb_spec (Name col) "_time") as [E|N4];
             [| destruct (String.eqb_spec (Name col) "") as [E|N5]]]]];
    try rewrite E in Hnext, Hbad;
    cbn [String.eqb Ascii.eqb Bool.eqb orb andb negb] in Hnext, Hbad.
  - destruct (Type_ col =? "string")%string; cbn [negb] in *;
      [| by apply (Hbad "string")].
    eapply Hnext; [apply IH; lia | ..]; cbn; rewrite ?app_nil_r; try done;
      intuition (first [lia | congruence | exfalso; lia]).
  - destruct (Type_ col =? "string")%string; cbn [negb] in *;
      [| by apply (Hbad "string")].
    eapply Hnext; [apply IH; lia | ..]; cbn; rewrite ?app_nil_r; try done;
      intuition (first [lia | congruence | exfalso; lia]).
  - eapply Hnext; [apply IH; lia | ..]; cbn; rewrite ?app_nil_r; try done;
      intuition (first [lia | congruence | exfalso; lia]).
  - destruct (HasPrefix (Type_ col) "dateTime:"); cbn [negb] in *;
      [| by apply (Hbad "dateTime:*")].
    eapply Hnext; [apply IH; lia | ..]; cbn; rewrite ?app_nil_r; try done;
      intuition (first [lia | congruence | exfalso; lia]).
  - eapply Hnext; [apply IH; lia | ..]; cbn; rewrite ?app_nil_r; try done;
      intuition (first [lia | congruence | exfalso; lia]).
  - eapply Hnext; [apply IH; lia | ..]; cbn; rewrite ?app_nil_r; try done;
      intuition (first [lia | congruence | exfalso; lia]).
Qed.

Lemma tableInfoForColumns_unfold (cols : list Column) :
  columnsLoopPost 0 cols
    {| measurement := -1; field := -1; value := -1; time := -1;
       tagNames := nil; tagIndexes := nil |}
    (columnsLoop 0 cols
       {| measurement := -1; field := -1; value := -1; time := -1;
          tagNames := nil; tagIndexes := nil |}).
Proof. apply columnsLoop_spec. lia. Qed.

(** The outcome of [tableInfoForColumns], read off the columns. *)
Lemma tableInfoForColumns_spec (cols : list Column) :
  match tableInfoForColumns cols with
  | inr e =>
      schemaFault cols e
      /\ (existsb mistyped cols = true
          \/ exists name, In name required /\ hasColumn name cols = false)
  | inl info =>
      existsb mistyped cols = false
      /\ (forall name, In name required -> hasColumn name cols = true)
      /\ tagNames info = map (fun p => tagKey (snd p)) (tagColumns cols)
      /\ tagIndexes info = map fst (tagColumns cols)
  end.
Proof.
  unfold tableInfoForColumns. pose proof (tableInfoForColumns_unfold cols) as H.
  destruct (columnsLoop 0 cols _) as [info|e]; cbn in H.
  2: { destruct H as (c & want & Hin & Hm & ->). split.
       - right. by exists c, want.
       - left. apply existsb_exists. by exists c. }
  destruct H as (Hm & H1 & H2 & H3 & H4 & Hn & Hx).
  assert (Hmiss : forall name,
    In name required -> hasColumn name cols = false ->
    schemaFault cols (Errorf ("no " +:+ name +:+ " column found in table") nil)
    /\ (existsb mistyped cols = true
        \/ exists name, In name required /\ hasColumn name cols = false)).
  { intros name Hin Hh. split; [left | right]; exists name; by repeat split. }
  unfold required in *.
  destruct (Z.eqb_spec (measurement info) (-1)) as [E1|E1];
    [apply (Hmiss "_measurement"); [cbn; tauto | tauto] |].
  destruct (Z.eqb_spec (field info) (-1)) as [E2|E2];
    [apply (Hmiss "_field"); [cbn; tauto | tauto] |].
  destruct (Z.eqb_spec (value info) (-1)) as [E3|E3];
    [apply (Hmiss "_value"); [cbn; tauto | tauto] |].
  destruct (Z.eqb_spec (time info) (-1)) as [E4|E4];
    [apply (Hmiss "_time"); [cbn; tauto | tauto] |].
  split; [done |]. split; [| by split].
  intros name [<-|[<-|[<-|[<-|[]]]]].
  - destruct (hasColumn "_measurement" cols); [done | tauto].
  - destruct (hasColumn "_field" cols); [done | tauto].
  - destruct (hasColumn "_value" cols); [done | tauto].
  - destruct (hasColumn "_time" cols); [done | tauto].
Qed.

(** ** Errors of the row loop *)

Lemma fieldValue_error (v : any) (e : error) :
  fieldValue v = inr e ->
  exists T, e = Errorf "unexpected value type in _value %T" [AStr T].
Proof. destruct v; intros [= <-]; eauto. Qed.

Lemma writeRows_error (info : tableInfo) (rows : list (list any)) :
  forall output output' e,
    writeRows info rows output = (output', Returns (Some e)) ->
    exists T, e = Errorf "unexpected value type in _value %T" [AStr T].
Proof.
  induction rows as [|row rows IH]; intros output output' e H; [discriminate |].
  cbn [writeRows] in H.
  destruct (writeRow info row) as [[line|e']|p] eqn:Hw; [by eapply IH | | discriminate].
  injection H as <- <-.
  unfold writeRow in Hw.
  repeat match type of Hw with
  | (?m ≫= _) = _ => destruct m; cbn [mbind exec_bind] in Hw; try discriminate
  end.
  destruct (fieldValue _) as [text|e''] eqn:Hf.
  - repeat match type of Hw with
    | (?m ≫= _) = _ => destruct m; cbn [mbind exec_bind] in Hw; try discriminate
    end.
  - injection Hw as <-. by apply fieldValue_error in Hf.
Qed.

(** ** The schema convention *)

(** C8: [tableInfoForColumns] fails exactly when the table lacks a column
    named _measurement, _field, _value or _time, or a column named
    _measurement or _field is declared with a type other than "string", or
    a column named _time with a type that does not start with "dateTime:";
    the type of _value is never looked at. The error names the missing
    column, or the mistyped column with the type found; and the encoder
    fails with "cannot get table info for columns" around that error, and
    with that message in no other case. *)
Theorem schema_errors (cols : list Column) :
  ((exists e, tableInfoForColumns cols = inr e) <->
   (exists name, In name required /\ hasColumn name cols = false)
   \/ (exists c, In c cols /\ mistyped c = true))
  /\ (forall e, tableInfoForColumns cols = inr e -> schemaFault cols e)
  /\ (forall rows e,
        snd (writeLineProtocol [ {| Columns := cols; Rows := rows |} ])
        = Returns (Some (Errorf "cannot get table info for columns: %v" [AErr e]))
        <-> tableInfoForColumns cols = inr e).
Proof.
  pose proof (tableInfoForColumns_spec cols) as H.
  split; [| split].
  - destruct (tableInfoForColumns cols) as [info|e].
    + destruct H as (Hm & Hall & _). split; [intros [? ?]; discriminate |].
      intros [(name & Hin & Hh)|(c & Hin & Hc)].
      * rewrite (Hall name Hin) in Hh. discriminate.
      * assert (existsb mistyped cols = true) by (apply existsb_exists; eauto).
        congruence.
    + destruct H as (_ & [Hm|Hmiss]); split; eauto.
      intros _. right. apply existsb_exists in Hm. exact Hm.
  - intros e He. rewrite He in H. tauto.
  - intros rows e. unfold writeLineProtocol. cbn [writeTables Columns Rows].
    destruct (tableInfoForColumns cols) as [info|e0]; cbn [snd].
    + split; [| discriminate].
      destruct (writeRows info rows "") as [out [[e1|]|p]] eqn:Hw; cbn [snd];
        try discriminate.
      intros [= ->]. apply writeRows_error in Hw as [T HT]. discriminate.
    + split; intros [= ->]; reflexivity.
Qed.

(** ** Tags *)

(** C9: the tag keys of a table are the names of its tag columns (the
    columns with a name other than the four reserved ones) with one leading
    underscore stripped, [_foo] giving [foo] and [__foo] giving [_foo], a
    name without leading underscore staying as it is; keys and positions
    are kept in column order, and a row is written with one [,key=value]
    per tag in that order, the key being the escaped tag key. *)
Theorem tag_keys :
  (forall cols info,
      tableInfoForColumns cols = inl info ->
      tagNames info = map (fun p => tagKey (snd p)) (tagColumns cols)
      /\ tagIndexes info = map fst (tagColumns cols))
  /\ (forall s : string, TrimPrefix (String "_" s) "_" = s)
  /\ (forall s : string, HasPrefix s "_" = false -> TrimPrefix s "_" = s)
  /\ tagKey (col "_foo" "string") = "foo"
  /\ tagKey (col "__foo" "long") = "_foo"
  /\ tagKey (col "host" "tag") = "host"
  /\ (forall row name names i indexes line v text,
        0 <= i -> row !! Z.to_nat i = Some v ->
        escapeValue v tagValueEscaper = Returns text ->
        writeTags row (name :: names) (i :: indexes) line
        = writeTags row names indexes
            (line +:+ "," +:+ Replace tagNameEscaper name +:+ "=" +:+ text))
  /\ fst (writeLineProtocol [underscoreTable])
     = "m,foo=x,_foo=7i,host=h f=1i 1672531200000000000" +:+ newline.
Proof.
  split.
  { intros cols info H. pose proof (tableInfoForColumns_spec cols) as S.
    rewrite H in S. tauto. }
  split; [exact TrimPrefix_underscore |].
  split; [intros s; apply TrimPrefix_no_prefix |].
  do 3 (split; [reflexivity |]).
  split.
  - intros row name names i indexes line v text Hi Hv He.
    cbn [writeTags escapeValue mbind exec_bind]. unfold index.
    destruct (Z.ltb_spec i 0); [lia |]. rewrite Hv. cbn [mbind exec_bind].
    by rewrite He.
  - vm_compute. reflexivity.
Qed.

End WithRuntime.

(** ** The theorems at sample inputs *)

#[local] Existing Instance sampleRuntime.

Lemma cpu_example_line_witness :
  formatFloat 1.5%float = "1.5"
  /\ writeLineProtocol [cpuTable]
     = ("cpu,host=a temp=1.5 1672531200000000000" +:+ newline, Returns None).
Proof.
  split; [reflexivity |]. apply (@cpu_example_line sampleRuntime). reflexivity.
Defined.

Lemma escapeValue_total_witness :
  Main.convertToType "1" "long" = (Int64 1, None)
  /\ decoderKind (Int64 1) = true
  /\ exists text, escapeValue (Int64 1) tagValueEscaper = Returns text.
Proof.
  split; [reflexivity |].
  exact (@escapeValue_total sampleRuntime "1" "long" (Int64 1) tagValueEscaper eq_refl).
Defined.

Lemma schema_errors_witness :
  exists e,
    tableInfoForColumns [ col "_measurement" "string"; col "_field" "string";
                          col "_time" "dateTime:RFC3339" ] = inr e.
Proof.
  apply (proj2 (proj1 (@schema_errors sampleRuntime _))).
  left. exists "_value". split; [cbn; tauto | reflexivity].
Defined.

Lemma tag_keys_witness :
  exists info,
    tableInfoForColumns underscoreColumns = inl info
    /\ tagNames info = ["foo"; "_foo"; "host"]
    /\ tagIndexes info = [1; 3; 6].
Proof.
  eexists. split; [vm_compute; reflexivity |].
  exact (proj1 (@tag_keys sampleRuntime) underscoreColumns _ eq_refl).
Defined.

End Csv2lineprotocolFacts.

(* ===================================================================== *)
(** * Further properties of the decoder                                   *)
(* ===================================================================== *)

Module DecoderProperties.
Import Go GoFacts Main MainFacts Sample.

Section WithRuntime.
Context {rt : Runtime}.

(** ** Peek and Read as a one-row lookahead *)

Lemma lookahead_ext (calls : list call) :
  forall s s' k, (forall j, s j = s' j) -> lookahead calls s k = lookahead calls s' k.
Proof.
  induction calls as [|[] calls IH]; intros s s' k H; cbn; [done | |];
    rewrite (H k); f_equal; by apply IH.
Qed.

Lemma lookahead_shift (calls : list call) :
  forall s k, lookahead calls (fun j => s (S j)) k = lookahead calls s (S k).
Proof. induction calls as [|[] calls IH]; intros s k; cbn; [done | |]; by rewrite IH. Qed.

Lemma stream_Peek (cr : csvReader) (j : nat) :
  stream (upcoming (snd (Peek cr))) j = stream (upcoming cr) j.
Proof.
  destruct (Peek_upcoming cr) as [_ ->]. unfold stream.
  destruct (upcoming cr) as [|x l]; cbn; [by destruct j as [|[|j]] | done].
Qed.

Lemma stream_Read (cr : csvReader) (j : nat) :
  stream (upcoming (snd (Read cr))) j = stream (upcoming cr) (S j).
Proof.
  destruct (Read_upcoming cr) as [_ ->]. unfold stream.
  destruct (upcoming cr) as [|x l]; cbn; [by destruct j | done].
Qed.

Lemma run_lookahead (calls : list call) :
  forall cr, fst (run calls cr) = lookahead calls (stream (upcoming cr)) 0.
Proof.
  induction calls as [|[] calls IH]; intros cr; cbn [run lookahead]; [done | |].
  - destruct (Peek_upcoming cr) as [Hres _].
    destruct (Peek cr) as [res cr1] eqn:HP. cbn in Hres.
    specialize (IH cr1). destruct (run calls cr1) as [trace cr2]. cbn in *.
    rewrite IH, Hres. f_equal; [by destruct (upcoming cr) |].
    apply lookahead_ext. intros j.
    pose proof (stream_Peek cr j) as X. by rewrite HP in X.
  - destruct (Read_upcoming cr) as [Hres _].
    destruct (Read cr) as [res cr1] eqn:HR. cbn in Hres.
    specialize (IH cr1). destruct (run calls cr1) as [trace cr2]. cbn in *.
    rewrite IH, Hres. f_equal; [by destruct (upcoming cr) |].
    rewrite <- lookahead_shift. apply lookahead_ext. intros j.
    pose proof (stream_Read cr j) as X. by rewrite HR in X.
Qed.

Lemma consumed_Peek (cr : csvReader) : consumed (snd (Peek cr)) = consumed cr.
Proof.
  unfold consumed, Peek. destruct cr as [hp rw er [rs p] ln]; cbn.
  destruct hp; cbn; [done |]. destruct (nth p rs _) as [??]. cbn. lia.
Qed.

Lemma consumed_Read (cr : csvReader) :
  tracks cr -> consumed (snd (Read cr)) = S (consumed cr).
Proof.
  intros [_ Hp]. unfold consumed, Read. destruct cr as [hp rw er [rs p] ln]; cbn in *.
  destruct hp; cbn; [destruct (Hp eq_refl); lia | lia].
Qed.

Lemma run_tracks (calls : list call) :
  forall cr, tracks cr ->
    tracks (snd (run calls cr))
    /\ consumed (snd (run calls cr)) = (consumed cr + countReads calls)%nat.
Proof.
  induction calls as [|[] calls IH]; intros cr Ht; cbn [run countReads].
  - cbn. split; [done | lia].
  - pose proof (Peek_tracks cr Ht) as Ht1. pose proof (consumed_Peek cr) as Hc.
    destruct (Peek cr) as [res cr1]. cbn in Ht1, Hc.
    destruct (IH cr1 Ht1) as [IH1 IH2]. destruct (run calls cr1) as [trace cr2].
    cbn in *. split; [done | lia].
  - pose proof (Read_tracks cr Ht) as Ht1. pose proof (consumed_Read cr Ht) as Hc.
    destruct (Read cr) as [res cr1]. cbn in Ht1, Hc.
    destruct (IH cr1 Ht1) as [IH1 IH2]. destruct (run calls cr1) as [trace cr2].
    cbn in *. split; [done | lia].
Qed.

(** X1: whatever sequence of Peek and Read calls is made on a new reader,
    the k-th Read returns the k-th result of the input (io.EOF past its
    end) and every Peek returns what the next Read will return: no row is
    lost, repeated or reordered by peeking. After the calls the reader has
    fetched one result per Read made, and one more if a result is peeked,
    and its line counter is that number. *)
Theorem reads_in_order (calls : list call) (input : list readResult) :
  let final := snd (run calls (newReader input)) in
  fst (run calls (newReader input)) = lookahead calls (stream input) 0
  /\ pos (r final)
     = (countReads calls + (if hasPeeked final then 1 else 0))%nat
  /\ line final = wrap64 (Z.of_nat (pos (r final))).
Proof.
  intros final. split.
  { rewrite run_lookahead. by rewrite upcoming_newReader. }
  destruct (run_tracks calls (newReader input) (tracks_newReader input))
    as [[Hl Hp] Hc].
  fold final in Hl, Hp, Hc. split; [| exact Hl].
  unfold consumed in Hc. cbn in Hc.
  destruct (hasPeeked final); [destruct (Hp eq_refl); lia | lia].
Qed.

(** ** Termination *)

(** X2: the decoder returns on every reader state. The loops of
    [readHeader], [readTableRows] and [readAll] are run with one unit of
    fuel per result still to come, and one more; a turn that goes on has
    consumed a record, so the fuel is never used up. *)
Theorem decoder_terminates (cr : csvReader) (cols : list column) :
  is_Some (readHeader cr)
  /\ is_Some (readTableRows cr cols)
  /\ is_Some (readTable cr)
  /\ is_Some (readAll cr).
Proof.
  split; [apply readHeader_total |]. split; [apply readTableRows_total |].
  split; [apply readTable_total | apply readAll_total].
Qed.

(** ** Empty and failing input *)

Lemma readTable_at_error (cr : csvReader) (rec : list string) (e : error) :
  fst (Peek cr) = (rec, Some e) ->
  readTable cr = Some (inl emptyTable, snd (Peek cr)).
Proof.
  intros HP. rewrite readTable_unfold. unfold readHeader, readTableRows.
  rewrite readHeader_loop_step.
  destruct (Peek cr) as [[rec' oe] cr1] eqn:HPeek. cbn in HP. injection HP as -> ->.
  rewrite readTableRows_loop_step.
  pose proof (Peek_Peek cr) as HPP. rewrite HPeek in HPP. cbn in HPP.
  rewrite HPP. reflexivity.
Qed.

(** X3: when the first result the reader delivers is an error, no row is
    consumed. At [io.EOF] (an empty input) [readAll] returns one table, with
    no columns and no rows, and no error; at any other error it returns
    that error and no table. *)
Theorem readAll_at_error (cr : csvReader) (rec : list string) (e : error) :
  fst (Peek cr) = (rec, Some e) ->
  readAll cr
  = Some (match e with
          | EOF => ([emptyTable], None)
          | _ => (nil, Some e)
          end, snd (Peek cr)).
Proof.
  intros HP. unfold readAll. cbn [readAll_loop].
  rewrite (readTable_at_error cr rec e HP). cbn [mbind option_bind].
  rewrite Peek_Peek. destruct (Peek cr) as [[rec' oe] cr1]. cbn in HP.
  injection HP as -> ->. by destruct e.
Qed.

(** ** What readAll returns *)

Lemma readAll_loop_outcome (fuel : nat) :
  forall tables cr ts oe cr',
    readAll_loop fuel tables cr = Some ((ts, oe), cr') ->
    match oe with
    | None =>
        (length tables < length ts)%nat
        /\ hasPeeked cr' = true /\ err cr' = Some EOF
    | Some e =>
        (exists crk, readTable crk = Some (inr e, cr'))
        \/ (ts = nil /\ hasPeeked cr' = true /\ err cr' = Some e /\ e <> EOF)
    end.
Proof.
  induction fuel as [|fuel IH]; intros tables cr ts oe cr' H; [discriminate |].
  cbn [readAll_loop] in H.
  destruct (readTable cr) as [[[t|e0] c1]|] eqn:HT; cbn [mbind option_bind] in H;
    [| | discriminate].
  2: { injection H as <- <- <-. left. by exists cr. }
  destruct (Peek_state c1) as [Hp Hm].
  destruct (Peek c1) as [[rec [e1|]] c2] eqn:HP; cbn in Hp, Hm.
  - injection Hm as _ Herr.
    destruct e1; injection H as <- <- <-;
      first [ split; [rewrite length_app; cbn; lia | by split]
            | right; by repeat split ].
  - apply IH in H. destruct oe as [e|]; [exact H |].
    destruct H as (Hlen & ? & ?). rewrite length_app in Hlen. cbn in Hlen.
    split; [lia | by split].
Qed.

(** X4: when [readAll] returns without error it has decoded at least one
    table and has read the input to its end: the reader holds a peeked
    [io.EOF]. When it returns an error, either [readTable] failed with that
    error, or the underlying reader did; in the second case the tables
    decoded before the failure are dropped: the result holds none. *)
Theorem readAll_outcome (cr : csvReader) (ts : list table) (oe : option error)
    (cr' : csvReader) :
  readAll cr = Some ((ts, oe), cr') ->
  match oe with
  | None => ts <> nil /\ hasPeeked cr' = true /\ err cr' = Some EOF
  | Some e =>
      (exists crk, readTable crk = Some (inr e, cr'))
      \/ (ts = nil /\ hasPeeked cr' = true /\ err cr' = Some e /\ e <> EOF)
  end.
Proof.
  intros H. apply readAll_loop_outcome in H. destruct oe as [e|]; [exact H |].
  destruct H as (Hlen & ? & ?). split; [| by split].
  intros ->. cbn in Hlen. lia.
Qed.

(** ** convertToType on type tags without a parser *)

(** X5: a type tag that is none of boolean, long, unsignedLong and double
    and does not start with [dateTime:] (so string, tag, the empty tag and
    every unknown tag) never makes a conversion fail: the text comes back
    unchanged as a string. *)
Theorem convertToType_passes_text (s typ : string) :
  typ <> "boolean" -> typ <> "long" -> typ <> "unsignedLong" -> typ <> "double" ->
  HasPrefix typ "dateTime:" = false ->
  convertToType s typ = (Str s, None).
Proof.
  intros H1 H2 H3 H4 Hp. unfold convertToType.
  rewrite (proj2 (String.eqb_neq _ _) H1), (proj2 (String.eqb_neq _ _) H2),
          (proj2 (String.eqb_neq _ _) H3), (proj2 (String.eqb_neq _ _) H4).
  rewrite (TrimPrefix_no_prefix _ _ Hp), Nat.eqb_refl. cbn [negb].
  by destruct (_ || _).
Qed.

Lemma TrimPrefix_dateTime (f : string) :
  TrimPrefix ("dateTime:" +:+ f) "dateTime:" = f.
Proof.
  unfold TrimPrefix, HasPrefix.
  cbv beta iota fix delta [String.append]. cbn.
  destruct f; cbn; [reflexivity |]. by rewrite substring_all.
Qed.

(** X6: for a type tag [dateTime:f] the converter parses the text with
    [time.Parse] under the layout registered for [f], and only RFC3339 and
    RFC3339Nano are registered: under any other format name, the empty one
    included, every conversion fails with "unknown time format", whatever
    the text. *)
Theorem convertToType_dateTime (s f : string) :
  convertToType s ("dateTime:" +:+ f)
  = if decide (f = "RFC3339") then
      (TimeVal (fst (time_Parse RFC3339 s)), snd (time_Parse RFC3339 s))
    else if decide (f = "RFC3339Nano") then
      (TimeVal (fst (time_Parse RFC3339Nano s)), snd (time_Parse RFC3339Nano s))
    else (Nil, Some (Errorf "unknown time format %q" [AStr ("dateTime:" +:+ f)])).
Proof.
  unfold convertToType. rewrite TrimPrefix_dateTime.
  assert (Hlen : (String.length f =? String.length ("dateTime:" +:+ f))%nat = false).
  { apply Nat.eqb_neq. cbv beta iota fix delta [String.append]. cbn. lia. }
  rewrite Hlen. cbv beta iota fix delta [String.append].
  cbn [String.eqb Ascii.eqb Bool.eqb orb negb].
  unfold timeFormats.
  destruct (decide (f = "RFC3339")) as [->|N1].
  { rewrite lookup_insert_eq. cbn. by destruct (time_Parse RFC3339 s). }
  rewrite lookup_insert_ne by done.
  destruct (decide (f = "RFC3339Nano")) as [->|N2].
  { rewrite lookup_insert_eq. cbn. by destruct (time_Parse RFC3339Nano s). }
  rewrite lookup_insert_ne by done. rewrite lookup_empty. reflexivity.
Qed.


(** ** The schema read from a header section *)

(** A reader whose next result is the record [rec] hands it to [Peek], and
    the [Read] after it leaves the results behind [rec]. *)
Lemma take_record (cr : csvReader) (rec : list string) (e : option error)
    (rest : list readResult) :
  upcoming cr = (rec, e) :: rest ->
  exists cr1, Peek cr = ((rec, e), cr1) /\ upcoming (snd (Read cr1)) = rest.
Proof.
  intros Hu. destruct (Peek_upcoming cr) as [H1 H2].
  rewrite Hu in H1, H2. cbn in H1, H2.
  destruct (Peek cr) as [res cr1]. cbn in H1, H2. subst res.
  exists cr1. split; [done |].
  destruct (Read_upcoming cr1) as [_ ->]. by rewrite H2.
Qed.

Lemma lastRow_snoc (key : string) (annots : list (list string)) (row : list string) :
  lastRow key (annots ++ [row]) =
    if (firstField row =? key)%string then row else lastRow key annots.
Proof. unfold lastRow. by rewrite foldl_app. Qed.

Lemma annotated_length (annots : list (list string)) (n : nat) :
  length (annotated annots n) = n.
Proof. unfold annotated. by rewrite length_map, length_seq. Qed.

Lemma annotated_lookup (annots : list (list string)) (n i : nat) :
  (i < n)%nat -> annotated annots n !! i = Some (annotatedColumn annots i).
Proof.
  intros Hi. unfold annotated. rewrite list_lookup_fmap.
  by rewrite lookup_seq_lt.
Qed.

Lemma annotated_nil (n : nat) : annotated nil n = replicate n zeroColumn.
Proof.
  apply list_eq. intros i. destruct (decide (i < n)%nat) as [Hi|Hi].
  - rewrite annotated_lookup by done.
    rewrite (lookup_replicate_2 n zeroColumn i) by done.
    f_equal. by destruct i as [|[|i]].
  - rewrite !lookup_ge_None_2; [done | |].
    + rewrite length_replicate. lia.
    + rewrite annotated_length. lia.
Qed.

(** The width check of [readHeader] on a row of the right width gives the
    columns annotated so far. *)
Lemma checkedColumns_annotated (cols : list column) (done : list (list string))
    (row : list string) (ln : Z) :
  row <> nil ->
  (cols = nil /\ done = nil) \/ cols = annotated done (length row) ->
  checkedColumns cols row ln = inl (annotated done (length row)).
Proof.
  intros Hne [[-> ->] | ->].
  - unfold checkedColumns. destruct row as [|f row]; [done |].
    by rewrite annotated_nil.
  - unfold checkedColumns.
    destruct (annotated done (length row)) as [|c cs] eqn:E.
    + apply (f_equal length) in E. rewrite annotated_length in E.
      by destruct row.
    + rewrite <- E, annotated_length, Nat.eqb_refl. done.
Qed.

(** What one annotation row does to the columns. *)
Lemma assignFrom1_eq (f : string -> column -> column) (cols : list column)
    (row : list string) (out : list column) :
  length row = length cols -> length out = length cols ->
  (forall i c v, cols !! i = Some c -> row !! i = Some v ->
     out !! i = Some (if i is O then c else f v c)) ->
  assignFrom1 f cols row = out.
Proof.
  intros Hr Ho H. apply list_eq. intros i.
  destruct (cols !! i) as [c|] eqn:Hc.
  - destruct (lookup_lt_is_Some_2 row i) as [v Hv].
    { rewrite Hr. by eapply lookup_lt_Some. }
    rewrite (assignFrom1_lookup f cols row i c v Hc Hv). symmetry. by eapply H.
  - apply lookup_ge_None_1 in Hc.
    rewrite !lookup_ge_None_2; [done | lia |].
    destruct cols, row; cbn in *; try lia. rewrite assignAll_length. lia.
Qed.

Lemma nth_lookup_string (l : list string) (i : nat) (v : string) :
  l !! i = Some v -> nth i l "" = v.
Proof. intros H. by rewrite (nth_lookup_Some l i "" v). Qed.

Lemma annotated_snoc (done : list (list string)) (row : list string) :
  HasPrefix (firstField row) "#" = true ->
  annotated (done ++ [row]) (length row) =
    if (firstField row =? "#datatype")%string then
      assignFrom1 setType (annotated done (length row)) row
    else if (firstField row =? "#group")%string then
      assignFrom1 (fun v => setGroup (v =? "true")%string)
        (annotated done (length row)) row
    else annotated done (length row).
Proof.
  intros _.
  destruct (String.eqb_spec (firstField row) "#datatype") as [Ht|Ht].
  { symmetry. apply assignFrom1_eq; rewrite ?annotated_length; [done..|].
    intros i c v Hc Hv.
    assert (Hi : (i < length row)%nat) by (by eapply lookup_lt_Some).
    rewrite annotated_lookup in Hc by done. injection Hc as <-.
    rewrite annotated_lookup by done. f_equal.
    unfold annotatedColumn. rewrite !lastRow_snoc, Ht. cbn [String.eqb Ascii.eqb Bool.eqb].
    destruct i as [|i]; [done |]. unfold setType. cbn.
    by rewrite (nth_lookup_string _ _ _ Hv). }
  destruct (String.eqb_spec (firstField row) "#group") as [Hg|Hg].
  { symmetry. apply assignFrom1_eq; rewrite ?annotated_length; [done..|].
    intros i c v Hc Hv.
    assert (Hi : (i < length row)%nat) by (by eapply lookup_lt_Some).
    rewrite annotated_lookup in Hc by done. injection Hc as <-.
    rewrite annotated_lookup by done. f_equal.
    unfold annotatedColumn. rewrite !lastRow_snoc, Hg. cbn [String.eqb Ascii.eqb Bool.eqb].
    destruct i as [|i]; [done |]. unfold setGroup. cbn.
    by rewrite (nth_lookup_string _ _ _ Hv). }
  unfold annotated. apply map_ext. intros i.
  unfold annotatedColumn. rewrite !lastRow_snoc.
  apply String.eqb_neq in Ht, Hg. by rewrite Ht, Hg.
Qed.

(** The loop of [readHeader] over the annotation rows [annots] and the
    header row behind them, [done] being the annotation rows already
    read. *)
Lemma readHeader_loop_schema (header : list string) (rest : list readResult) :
  header <> nil -> HasPrefix (firstField header) "#" = false ->
  forall annots done cols defaults cr fuel,
    (length annots < fuel)%nat ->
    Forall (annotationRow (length header)) annots ->
    (cols = nil /\ done = nil) \/ cols = annotated done (length header) ->
    defaults = lastRow "#default" done ->
    upcoming cr = (map (fun a => (a, None)) annots ++ (header, None) :: rest)%list ->
    exists cr',
      readHeader_loop fuel cols defaults cr =
        Some (applyDefaults
                (assignAll setName (annotated (done ++ annots) (length header)) header)
                (lastRow "#default" (done ++ annots)), cr')
      /\ upcoming cr' = rest.
Proof.
  intros Hne Hh.
  induction annots as [|row annots IH]; intros done cols defaults cr fuel Hf Ha Hc Hd Hu;
    (destruct fuel as [|fuel]; [cbn in Hf; lia |]); rewrite readHeader_loop_step.
  - cbn in Hu. destruct (take_record _ _ _ _ Hu) as (cr1 & -> & Hr).
    cbn zeta. rewrite (checkedColumns_annotated cols done header _ Hne Hc).
    rewrite Hh. cbn [negb]. rewrite app_nil_r, Hd. by exists (snd (Read cr1)).
  - cbn in Hu. destruct (take_record _ _ _ _ Hu) as (cr1 & -> & Hr).
    apply Forall_cons in Ha as [[Hw Hp] Ha].
    assert (Hrow : row <> nil) by (intros ->; by destruct header).
    cbn zeta. rewrite <- Hw in Hc.
    rewrite (checkedColumns_annotated cols done row _ Hrow Hc).
    rewrite Hp. cbn [negb].
    pose proof (annotated_snoc done row Hp) as Hs.
    cbn [length] in Hf.
    replace (done ++ row :: annots)%list with ((done ++ [row]) ++ annots)%list
      by (by rewrite <- app_assoc).
    destruct (firstField row =? "#datatype")%string eqn:Et.
    { apply IH; [lia | done | | | done].
      - right. by rewrite <- Hw, Hs.
      - rewrite lastRow_snoc. apply String.eqb_eq in Et. by rewrite Et. }
    destruct (firstField row =? "#group")%string eqn:Eg.
    { apply IH; [lia | done | | | done].
      - right. by rewrite <- Hw, Hs.
      - rewrite lastRow_snoc. apply String.eqb_eq in Eg. by rewrite Eg. }
    destruct (firstField row =? "#default")%string eqn:Ed.
    { apply IH; [lia | done | | | done].
      - right. by rewrite <- Hw, Hs.
      - by rewrite lastRow_snoc, Ed. }
    apply IH; [lia | done | | | done].
    + right. by rewrite <- Hw, Hs.
    + by rewrite lastRow_snoc, Ed.
Qed.

Lemma defaultsLoop_ok (cols : list column) :
  forall ds passed,
    (forall i c d, cols !! i = Some c -> ds !! i = Some d -> d <> "" ->
       snd (convertToType d (Type_ c)) = None) ->
    defaultsLoop passed cols ds =
      (rev_append passed
         (zip_with (fun c d => withDefault d c) cols ds ++ drop (length ds) cols), None).
Proof.
  induction cols as [|c cols IH]; intros [|d ds] passed Hok; cbn; try done.
  unfold withDefault at 1. destruct (String.eqb_spec d "") as [->|Hd].
  - rewrite IH; [done |]. intros i. apply (Hok (S i)).
  - specialize (Hok O c d eq_refl eq_refl Hd) as H0.
    destruct (convertToType d (Type_ c)) as [x [e|]]; [discriminate |].
    rewrite IH; [done |]. intros i. apply (Hok (S i)).
Qed.

Lemma defaultsLoop_fail (cols : list column) :
  forall ds passed i c d cause,
    cols !! i = Some c -> ds !! i = Some d -> d <> "" ->
    snd (convertToType d (Type_ c)) = Some cause ->
    (forall j c' d', (j < i)%nat -> cols !! j = Some c' -> ds !! j = Some d' ->
       d' <> "" -> snd (convertToType d' (Type_ c')) = None) ->
    defaultsLoop passed cols ds =
      (nil, Some (Errorf "cannot convert default value %q to type %q: %v"
                    [AStr d; AStr (Type_ c); AErr cause])).
Proof.
  induction cols as [|c0 cols IH]; intros [|d0 ds] passed i c d cause Hc Hd Hne Hbad Hok;
    try (by destruct i). 
  destruct i as [|i]; cbn in Hc, Hd.
  - injection Hc as ->. injection Hd as ->. cbn.
    apply String.eqb_neq in Hne. rewrite Hne.
    destruct (convertToType d (Type_ c)) as [x [e|]]; cbn in Hbad; by simplify_eq.
  - cbn. destruct (String.eqb_spec d0 "") as [->|Hd0].
    + eapply IH; eauto. intros j c' d' Hj. apply (Hok (S j)). lia.
    + specialize (Hok O c0 d0 ltac:(lia) eq_refl eq_refl Hd0) as H0.
      destruct (convertToType d0 (Type_ c0)) as [x [e|]]; [discriminate |].
      eapply IH; eauto. intros j c' d' Hj. apply (Hok (S j)). lia.
Qed.

(** The columns [readHeader] returns when every default converts: at
    every index but 0 the column takes its converted default. *)
Lemma applyDefaults_ok (cols : list column) (ds : list string) :
  ds = nil \/ length ds = length cols ->
  (forall i c, (1 <= i)%nat -> cols !! i = Some c -> nth i ds "" <> "" ->
     snd (convertToType (nth i ds "") (Type_ c)) = None) ->
  exists out,
    applyDefaults cols ds = (out, None)
    /\ length out = length cols
    /\ forall i c, cols !! i = Some c ->
         out !! i = Some (withDefault (match i with O => "" | S _ => nth i ds "" end) c).
Proof.
  intros Hl Hok. destruct ds as [|d0 ds].
  { exists cols. split; [done |]. split; [done |]. intros i c Hc.
    rewrite Hc. f_equal. by destruct i. }
  destruct Hl as [|Hl]; [done |]. destruct cols as [|c0 cols]; [done |].
  cbn in Hl. injection Hl as Hl. cbn [applyDefaults].
  rewrite defaultsLoop_ok.
  2: { intros i c d Hc Hd Hne. specialize (Hok (S i) c ltac:(lia) Hc). cbn in Hok.
       rewrite (nth_lookup_string _ _ _ Hd) in Hok. by apply Hok. }
  rewrite Hl, drop_all, app_nil_r. cbn.
  eexists. split; [done |]. split.
  { cbn. rewrite length_zip_with. lia. }
  intros [|i] c Hc; cbn in Hc |- *; [by simplify_eq |].
  destruct (lookup_lt_is_Some_2 ds i) as [d Hd].
  { rewrite Hl. by eapply lookup_lt_Some. }
  apply lookup_zip_with_Some. exists c, d.
  by rewrite (nth_lookup_string _ _ _ Hd).
Qed.

Lemma applyDefaults_fail (cols : list column) (ds : list string) (i : nat)
    (c : column) (cause : error) :
  length ds = length cols -> (1 <= i)%nat -> cols !! i = Some c ->
  nth i ds "" <> "" ->
  snd (convertToType (nth i ds "") (Type_ c)) = Some cause ->
  (forall j c', (1 <= j < i)%nat -> cols !! j = Some c' -> nth j ds "" <> "" ->
     snd (convertToType (nth j ds "") (Type_ c')) = None) ->
  applyDefaults cols ds =
    (nil, Some (Errorf "cannot convert default value %q to type %q: %v"
                  [AStr (nth i ds ""); AStr (Type_ c); AErr cause])).
Proof.
  intros Hl Hi Hc Hne Hbad Hok.
  destruct ds as [|d0 ds]; [by destruct cols, i |].
  destruct cols as [|c0 cols]; [done |]. destruct i as [|i]; [lia |].
  cbn in Hl. injection Hl as Hl. cbn in Hc. cbn [applyDefaults].
  destruct (lookup_lt_is_Some_2 ds i) as [d Hd].
  { rewrite Hl. by eapply lookup_lt_Some. }
  cbn [nth] in *. rewrite (nth_lookup_string _ _ _ Hd) in *.
  eapply defaultsLoop_fail; eauto.
  intros j c' d' Hj Hc' Hd' Hne'. specialize (Hok (S j) c' ltac:(lia) Hc').
  cbn in Hok. rewrite (nth_lookup_string _ _ _ Hd') in Hok. by apply Hok.
Qed.

Lemma lastRow_width (key : string) (annots : list (list string)) (n : nat) :
  Forall (annotationRow n) annots ->
  lastRow key annots = nil \/ length (lastRow key annots) = n.
Proof.
  induction annots as [|row annots IH] using rev_ind; intros Ha; [by left |].
  apply Forall_app in Ha as [Ha Hrow]. apply Forall_cons in Hrow as [[Hw _] _].
  rewrite lastRow_snoc. destruct (firstField row =? key)%string; [by right | by apply IH].
Qed.

(** [readHeader] on a header section: the annotation rows [annots], then
    the header row. *)
Lemma readHeader_section (cr : csvReader) (annots : list (list string))
    (header : list string) (rest : list readResult) :
  upcoming cr = (map (fun a => (a, None)) annots ++ (header, None) :: rest)%list ->
  header <> nil -> HasPrefix (firstField header) "#" = false ->
  Forall (annotationRow (length header)) annots ->
  exists cr',
    readHeader cr =
      Some (applyDefaults
              (assignAll setName (annotated annots (length header)) header)
              (lastRow "#default" annots), cr')
    /\ upcoming cr' = rest.
Proof.
  intros Hu Hne Hh Ha.
  destruct (readHeader_loop_schema header rest Hne Hh annots nil nil nil cr
              (S (length annots)) ltac:(lia) Ha ltac:(by left) eq_refl Hu)
    as (cr' & Hrun & Hrest).
  exists cr'. split; [| done]. cbn [app] in Hrun.
  destruct (readHeader_total cr) as [y Hy]. unfold readHeader in *.
  destruct (decide (S (length annots) <= S (remaining cr))%nat) as [Hle|Hgt].
  - exact (readHeader_loop_fuel _ _ _ _ _ Hrun _ Hle).
  - rewrite Hy. rewrite (readHeader_loop_fuel _ _ _ _ _ Hy (S (length annots))) in Hrun
      by lia. done.
Qed.

Lemma named_lookup (annots : list (list string)) (header : list string) (i : nat) :
  (i < length header)%nat ->
  assignAll setName (annotated annots (length header)) header !! i =
    Some (setName (nth i header "") (annotatedColumn annots i)).
Proof.
  intros Hi. destruct (lookup_lt_is_Some_2 header i Hi) as [v Hv].
  rewrite (nth_lookup_string _ _ _ Hv).
  apply assignAll_lookup; [by apply annotated_lookup | done].
Qed.

(** X7: the schema of a table. When the results to come are annotation
    rows (first field starting with [#]) and then a header row, all of one
    width, and every non-empty default converts to its column's type,
    [readHeader] consumes exactly these rows and returns one column per
    field of the header row: named by that field; typed by the last
    [#datatype] row and grouped by the last [#group] row, wherever they
    stand among the annotations; with the default of the last [#default]
    row converted to the column's type, or none where that row has an empty
    field or is missing. Column 0, under the annotation keys, gets a name
    only. *)
Theorem readHeader_schema (cr : csvReader) (annots : list (list string))
    (header : list string) (rest : list readResult) :
  upcoming cr = (map (fun a => (a, None)) annots ++ (header, None) :: rest)%list ->
  header <> nil -> HasPrefix (firstField header) "#" = false ->
  Forall (annotationRow (length header)) annots ->
  (forall i, (i < length header)%nat -> defaultText annots i <> "" ->
     snd (convertToType (defaultText annots i) (Type_ (annotatedColumn annots i))) = None) ->
  exists cr',
    readHeader cr =
      Some ((map (schemaColumn annots header) (seq 0 (length header)), None), cr')
    /\ upcoming cr' = rest.
Proof.
  intros Hu Hne Hh Ha Hok.
  destruct (readHeader_section cr annots header rest Hu Hne Hh Ha) as (cr' & -> & Hrest).
  exists cr'. split; [| done]. do 2 f_equal.
  set (cols := assignAll setName (annotated annots (length header)) header).
  assert (Hlen : length cols = length header)
    by (subst cols; by rewrite assignAll_length, annotated_length).
  destruct (applyDefaults_ok cols (lastRow "#default" annots)) as (out & -> & Hlo & Hout).
  { rewrite Hlen. by apply lastRow_width. }
  { intros i c Hi Hc Hd.
    assert (Hi' : (i < length header)%nat) by (rewrite <- Hlen; by eapply lookup_lt_Some).
    subst cols. rewrite named_lookup in Hc by done. injection Hc as <-.
    destruct i as [|i]; [lia |]. by apply (Hok (S i)). }
  f_equal. apply list_eq. intros i.
  destruct (decide (i < length header)%nat) as [Hi|Hi].
  - rewrite (Hout i _ (named_lookup annots header i Hi)).
    rewrite list_lookup_fmap, lookup_seq_lt by done. cbn. f_equal.
    unfold withDefault, schemaColumn, defaultText.
    destruct i as [|i]; [done |]. cbn.
    by destruct (_ =? "")%string.
  - rewrite !lookup_ge_None_2; [done | |].
    + rewrite length_map, length_seq. lia.
    + lia.
Qed.

(** X8: a default that does not convert. Under the same conditions on the
    rows, if the default of column [i] is not empty and does not convert to
    the type the annotations give that column (the last [#datatype] row,
    also when it comes after the [#default] row), and the defaults of the
    columns before it convert, [readHeader] fails with "cannot convert
    default value" for that default, that type and the conversion's error;
    it returns no columns, and the header row has been consumed. *)
Theorem readHeader_bad_default (cr : csvReader) (annots : list (list string))
    (header : list string) (rest : list readResult) (i : nat) (cause : error) :
  upcoming cr = (map (fun a => (a, None)) annots ++ (header, None) :: rest)%list ->
  header <> nil -> HasPrefix (firstField header) "#" = false ->
  Forall (annotationRow (length header)) annots ->
  (i < length header)%nat ->
  defaultText annots i <> "" ->
  snd (convertToType (defaultText annots i) (Type_ (annotatedColumn annots i)))
    = Some cause ->
  (forall j, (j < i)%nat -> defaultText annots j <> "" ->
     snd (convertToType (defaultText annots j) (Type_ (annotatedColumn annots j))) = None) ->
  exists cr',
    readHeader cr =
      Some ((nil,
             Some (Errorf "cannot convert default value %q to type %q: %v"
                     [AStr (defaultText annots i);
                      AStr (Type_ (annotatedColumn annots i)); AErr cause])), cr')
    /\ upcoming cr' = rest.
Proof.
  intros Hu Hne Hh Ha Hi Hd Hbad Hok.
  destruct (readHeader_section cr annots header rest Hu Hne Hh Ha) as (cr' & -> & Hrest).
  exists cr'. split; [| done]. do 2 f_equal.
  destruct i as [|i]; [done |]. cbn [defaultText] in Hd, Hbad |- *.
  set (cols := assignAll setName (annotated annots (length header)) header).
  assert (Hlen : length cols = length header)
    by (subst cols; by rewrite assignAll_length, annotated_length).
  pose proof (named_lookup annots header (S i) Hi) as Hc. fold cols in Hc.
  rewrite (applyDefaults_fail cols (lastRow "#default" annots) (S i)
             (setName (nth (S i) header "") (annotatedColumn annots (S i))) cause);
    [done | | lia | exact Hc | done | done |].
  - destruct (lastRow_width "#default" annots (length header) Ha) as [E|E]; [| lia].
    rewrite E in Hd. by destruct i.
  - intros j c' [Hj1 Hj2] Hc' Hdj.
    subst cols. rewrite named_lookup in Hc' by lia. injection Hc' as <-.
    destruct j as [|j]; [lia |]. by apply (Hok (S j)).
Qed.

(** ** The rows of a table *)

(** One field of a data row, by what it puts into the row map. *)
Lemma rowFields_step (col : column) (cols : list column) (val : string)
    (vals : list string) (m : gmap string any) :
  cellError col val = None ->
  rowFields (col :: cols) (val :: vals) m =
    rowFields cols vals
      (match cellValue col val with Some x => <[ Name col := x ]> m | None => m end).
Proof.
  unfold cellError, cellValue. cbn [rowFields].
  destruct (negb (isNil (Default col)) && (val =? "")%string); [done |].
  destruct ((val =? "")%string && (Name col =? "")%string); [done |].
  destruct (convertToType val (Type_ col)) as [x [e|]]; [discriminate | done].
Qed.

Lemma rowFields_cells (cols : list column) :
  forall vals m0,
    length vals = length cols ->
    NoDup (map Name cols) ->
    (forall i c v, cols !! i = Some c -> vals !! i = Some v -> cellError c v = None) ->
    exists m,
      rowFields cols vals m0 = inl m
      /\ (forall i c v, cols !! i = Some c -> vals !! i = Some v ->
            m !! Name c = match cellValue c v with Some x => Some x | None => m0 !! Name c end)
      /\ (forall k, ~ In k (map Name cols) -> m !! k = m0 !! k).
Proof.
  induction cols as [|c0 cols IH]; intros [|v0 vals] m0 Hl Hnd Hok; try done.
  { exists m0. cbn. split; [done |]. split; [| done]. by intros []. }
  cbn in Hl. injection Hl as Hl. cbn [map] in Hnd. apply NoDup_cons in Hnd as [Hn0 Hnd].
  rewrite rowFields_step by apply (Hok O c0 v0 eq_refl eq_refl).
  set (m1 := match cellValue c0 v0 with Some x => <[ Name c0 := x ]> m0 | None => m0 end).
  destruct (IH vals m1 Hl Hnd) as (m & -> & Hcells & Hother).
  { intros i. apply (Hok (S i)). }
  exists m. split; [done |]. split.
  - intros [|i] c v Hc Hv; cbn in Hc, Hv.
    + simplify_eq. rewrite Hother by (by rewrite <- list_elem_of_In).
      subst m1. destruct (cellValue c v); [by rewrite lookup_insert_eq | done].
    + rewrite (Hcells i c v Hc Hv). destruct (cellValue c v); [done |].
      assert (Name c <> Name c0).
      { intros E. apply Hn0. rewrite <- E. apply list_elem_of_fmap. exists c.
        split; [done |]. by eapply list_elem_of_lookup_2. }
      subst m1. destruct (cellValue c0 v0); [by rewrite lookup_insert_ne | done].
  - intros k Hk. cbn in Hk. rewrite Hother by tauto.
    subst m1. destruct (cellValue c0 v0); [| done].
    rewrite lookup_insert_ne; [done |]. intros E. apply Hk. by left.
Qed.

(** X9: the map of a data row. For a row as wide as the columns, under
    columns of pairwise distinct names, whose converted fields all convert,
    the row map holds for each column, under its name, the column's default
    when the field is empty and there is a default, the field converted to
    the column's type otherwise, and nothing when the field is empty and
    the column has neither name nor default; it has no other key. *)
Theorem rowFields_row (cols : list column) (vals : list string) :
  length vals = length cols ->
  NoDup (map Name cols) ->
  (forall i c v, cols !! i = Some c -> vals !! i = Some v -> cellError c v = None) ->
  exists m,
    rowFields cols vals ∅ = inl m
    /\ (forall i c v, cols !! i = Some c -> vals !! i = Some v ->
          m !! Name c = cellValue c v)
    /\ (forall k, ~ In k (map Name cols) -> m !! k = None).
Proof.
  intros Hl Hnd Hok.
  destruct (rowFields_cells cols vals ∅ Hl Hnd Hok) as (m & Hm & Hcells & Hother).
  exists m. split; [done |]. split.
  - intros i c v Hc Hv. rewrite (Hcells i c v Hc Hv).
    by destruct (cellValue c v).
  - intros k Hk. by rewrite Hother.
Qed.

(** The loop of [readTableRows] over the data rows [data]. *)
Lemma readTableRows_loop_data (cols : list column) (rest : list readResult) :
  stopsRows (nextResult rest) ->
  forall data ms rows cr fuel,
    (length data < fuel)%nat ->
    Forall2 (fun rec m => startsTable rec = false /\ length rec = length cols
                          /\ rowFields cols rec ∅ = inl m) data ms ->
    upcoming cr = (map (fun a => (a, None)) data ++ rest)%list ->
    exists cr',
      readTableRows_loop fuel cols rows cr = Some ((rows ++ ms, None)%list, cr')
      /\ upcoming cr' = nextResult rest :: tail rest.
Proof.
  intros Hstop.
  induction data as [|rec data IH]; intros ms rows cr fuel Hf H2 Hu;
    (destruct fuel as [|fuel]; [cbn in Hf; lia |]); rewrite readTableRows_loop_step.
  - apply Forall2_nil_inv_l in H2 as ->. cbn in Hu.
    destruct (Peek_upcoming cr) as [H1 H3]. rewrite Hu in H1, H3.
    destruct (Peek cr) as [[rec e] cr1]. cbn [fst snd] in H1, H3.
    rewrite <- H1 in Hstop. cbn in Hstop. rewrite app_nil_r.
    destruct e as [e|]; [by exists cr1 |]. rewrite Hstop. by exists cr1.
  - apply Forall2_cons_inv_l in H2 as (m & ms' & (Hs & Hw & Hm) & H2 & ->).
    cbn in Hu. destruct (take_record _ _ _ _ Hu) as (cr1 & -> & Hr).
    rewrite Hs, Hw, Nat.eqb_refl, Hm. cbn [negb].
    cbn [length] in Hf.
    destruct (IH ms' (rows ++ [m])%list (snd (Read cr1)) fuel ltac:(lia) H2 Hr)
      as (cr' & -> & Hrest).
    exists cr'. by rewrite <- app_assoc.
Qed.

(** X10: the rows of a table. When the results to come are data rows
    (first field not starting with [#]), each as wide as the columns and
    each decoding to a row map, followed by a result that is an error of
    the underlying reader, the end of the input, or a record starting with
    [#], [readTableRows] returns the maps of exactly these rows, in order,
    and leaves the result behind them to come: the record that starts the
    next table is not consumed. *)
Theorem readTableRows_data (cr : csvReader) (cols : list column)
    (data : list (list string)) (ms : list (gmap string any))
    (rest : list readResult) :
  upcoming cr = (map (fun a => (a, None)) data ++ rest)%list ->
  Forall2 (fun rec m => startsTable rec = false /\ length rec = length cols
                        /\ rowFields cols rec ∅ = inl m) data ms ->
  stopsRows (nextResult rest) ->
  exists cr',
    readTableRows cr cols = Some ((ms, None), cr')
    /\ upcoming cr' = nextResult rest :: tail rest.
Proof.
  intros Hu H2 Hstop.
  destruct (readTableRows_loop_data cols rest Hstop data ms nil cr (S (length data))
              ltac:(lia) H2 Hu) as (cr' & Hrun & Hrest).
  exists cr'. split; [| done]. cbn [app] in Hrun.
  destruct (readTableRows_total cr cols) as [y Hy]. unfold readTableRows in *.
  destruct (decide (S (length data) <= S (remaining cr))%nat) as [Hle|Hgt].
  - exact (readTableRows_loop_fuel _ _ _ _ _ Hrun _ Hle).
  - rewrite Hy.
    rewrite (readTableRows_loop_fuel _ _ _ _ _ Hy (S (length data))) in Hrun by lia.
    done.
Qed.

(** ** The columns of a table, by name *)

Lemma columnsMapFrom_lookup (cols : list column) :
  forall z m0,
    NoDup (map Name cols) ->
    (forall i c, cols !! i = Some c ->
       columnsMapFrom z cols m0 !! Name c =
         if (Name c =? "")%string && isNil (Default c) then m0 !! Name c
         else Some (setIndex (z + Z.of_nat i) c))
    /\ (forall k, ~ In k (map Name cols) -> columnsMapFrom z cols m0 !! k = m0 !! k).
Proof.
  induction cols as [|c0 cols IH]; intros z m0 Hnd.
  { split; [by intros [] | done]. }
  cbn [map] in Hnd. apply NoDup_cons in Hnd as [Hn0 Hnd].
  cbn [columnsMapFrom].
  set (m1 := if (Name c0 =? "")%string && isNil (Default c0) then m0
             else <[ Name c0 := setIndex z c0 ]> m0).
  assert (Hm1 : (if (Name c0 =? "")%string && isNil (Default c0)
                 then columnsMapFrom (z + 1) cols m0
                 else columnsMapFrom (z + 1) cols (<[ Name c0 := setIndex z c0 ]> m0))
                = columnsMapFrom (z + 1) cols m1).
  { subst m1. by destruct (_ && _). }
  rewrite Hm1. destruct (IH (z + 1) m1 Hnd) as [Hcols Hother]. split.
  - intros [|i] c Hc; cbn in Hc.
    + simplify_eq. rewrite Hother by (by rewrite <- list_elem_of_In).
      subst m1. rewrite Z.add_0_r.
      destruct (_ && _); [done | by rewrite lookup_insert_eq].
    + rewrite (Hcols i c Hc).
      replace (z + 1 + Z.of_nat i) with (z + Z.of_nat (S i)) by lia.
      destruct ((Name c =? "")%string && isNil (Default c)); [| done].
      assert (Name c <> Name c0).
      { intros E. apply Hn0. rewrite <- E. apply list_elem_of_fmap. exists c.
        split; [done |]. by eapply list_elem_of_lookup_2. }
      subst m1. destruct (_ && _); [done | by rewrite lookup_insert_ne].
  - intros k Hk. cbn in Hk. rewrite Hother by tauto.
    subst m1. destruct (_ && _); [done |].
    rewrite lookup_insert_ne; [done |]. intros E. apply Hk. by left.
Qed.

(** X11: the columns of a decoded table. When [readTable] succeeds on a
    header whose column names are pairwise distinct, the table's [Columns]
    holds each column under its name, with [Index] set to the column's
    position in the header row and the other fields as [readHeader] gave
    them; a column with neither name nor default is left out; and no other
    key is present. *)
Theorem readTable_columns (cr : csvReader) (cols : list column) (cr1 : csvReader)
    (t : table) (cr2 : csvReader) :
  readHeader cr = Some ((cols, None), cr1) ->
  readTable cr = Some (inl t, cr2) ->
  NoDup (map Name cols) ->
  (forall i c, cols !! i = Some c ->
     Columns t !! Name c =
       if (Name c =? "")%string && isNil (Default c) then None
       else Some (setIndex (Z.of_nat i) c))
  /\ (forall k, ~ In k (map Name cols) -> Columns t !! k = None).
Proof.
  intros Hh Ht Hnd. rewrite readTable_unfold, Hh in Ht.
  destruct (readTableRows cr1 cols) as [[[rows [e|]] c2]|]; try discriminate.
  injection Ht as <- <-. cbn [Columns].
  destruct (columnsMapFrom_lookup cols 0 ∅ Hnd) as [Hcols Hother]. split.
  - intros i c Hc. rewrite (Hcols i c Hc). by rewrite Z.add_0_l.
  - intros k Hk. by rewrite Hother.
Qed.

(** ** Tables one after another *)

Lemma readHeader_Peek (cr : csvReader) : readHeader (snd (Peek cr)) = readHeader cr.
Proof.
  destruct (readHeader_total cr) as [y Hy].
  destruct (readHeader_total (snd (Peek cr))) as [y' Hy'].
  rewrite Hy, Hy'. unfold readHeader in *.
  set (F := (S (remaining cr) + S (remaining (snd (Peek cr))))%nat).
  pose proof (readHeader_loop_fuel _ _ _ _ _ Hy F ltac:(lia)) as H1.
  pose proof (readHeader_loop_fuel _ _ _ _ _ Hy' F ltac:(lia)) as H2.
  subst F. cbn [Nat.add] in H1, H2.
  rewrite readHeader_loop_step in H1, H2. rewrite Peek_Peek in H2. congruence.
Qed.

Lemma readTable_Peek (cr : csvReader) : readTable (snd (Peek cr)) = readTable cr.
Proof. by rewrite !readTable_unfold, readHeader_Peek. Qed.

Lemma readAll_loop_fuel (fuel : nat) :
  forall tables cr x,
    readAll_loop fuel tables cr = Some x ->
    forall fuel', (fuel <= fuel')%nat -> readAll_loop fuel' tables cr = Some x.
Proof.
  induction fuel as [|fuel IH]; intros tables cr x H fuel' Hle; [discriminate |].
  destruct fuel' as [|fuel']; [lia |]. cbn [readAll_loop] in *.
  destruct (readTable cr) as [[[t|e] c1]|]; cbn [mbind option_bind] in *; try done.
  destruct (Peek c1) as [[rec [e|]] c2]; [done |].
  apply (IH _ _ _ H). lia.
Qed.

Lemma readAll_loop_step (fuel : nat) (tables : list table) (cr : csvReader) :
  readAll_loop (S fuel) tables cr =
    match readTable cr with
    | None => None
    | Some (inr e, cr1) => Some ((tables, Some e), cr1)
    | Some (inl t, cr1) =>
        match Peek cr1 with
        | ((_, Some EOF), cr2) => Some ((tables ++ [t], None)%list, cr2)
        | ((_, Some e), cr2) => Some ((nil, Some e), cr2)
        | ((_, None), cr2) => readAll_loop fuel (tables ++ [t])%list cr2
        end
    end.
Proof.
  cbn [readAll_loop]. destruct (readTable cr) as [[[t|e] c1]|]; cbn [mbind option_bind];
    try done.
Qed.

(** The tables decoded so far are carried along unchanged. *)
Lemma readAll_loop_acc (fuel : nat) :
  forall acc cr ts cr',
    readAll_loop fuel nil cr = Some ((ts, None), cr') ->
    readAll_loop fuel acc cr = Some ((acc ++ ts, None)%list, cr').
Proof.
  assert (G : forall fuel acc1 cr ts cr',
             readAll_loop fuel acc1 cr = Some ((ts, None), cr') ->
             exists ts', ts = (acc1 ++ ts')%list
               /\ forall acc2, readAll_loop fuel acc2 cr = Some ((acc2 ++ ts', None)%list, cr')).
  { clear fuel. induction fuel as [|fuel IH]; intros acc1 cr ts cr' H; [discriminate |].
    cbn [readAll_loop] in *.
    destruct (readTable cr) as [[[t|e] c1]|]; cbn [mbind option_bind] in *; try done.
    destruct (Peek c1) as [[rec [e|]] c2].
    - destruct e; try discriminate. injection H as <- <-.
      exists [t]. split; [done |]. done.
    - destruct (IH _ _ _ _ H) as (ts' & -> & Hall).
      exists (t :: ts'). split; [by rewrite <- app_assoc |].
      intros acc2. rewrite Hall. by rewrite <- app_assoc. }
  intros acc cr ts cr' H. destruct (G fuel nil cr ts cr' H) as (ts' & -> & Hall).
  apply Hall.
Qed.

(** X12: [readAll] decodes the tables one after another. After a first
    table [t] has been decoded: at the end of the input the result is [t]
    alone; at another error of the underlying reader the result is that
    error and no table; and when a record follows, the result is [t]
    followed by the tables [readAll] decodes from there on. *)
Theorem readAll_tables (cr : csvReader) (t : table) (cr1 : csvReader) :
  readTable cr = Some (inl t, cr1) ->
  match fst (Peek cr1) with
  | (_, Some EOF) => readAll cr = Some (([t], None), snd (Peek cr1))
  | (_, Some e) => readAll cr = Some ((nil, Some e), snd (Peek cr1))
  | (_, None) =>
      forall ts cr', readAll cr1 = Some ((ts, None), cr') ->
                     readAll cr = Some ((t :: ts, None), cr')
  end.
Proof.
  intros Ht.
  destruct (Peek cr1) as [[rec [e|]] cr2] eqn:HP; cbn [fst snd].
  - unfold readAll. cbn [readAll_loop]. rewrite Ht. cbn [mbind option_bind].
    rewrite HP. by destruct e.
  - intros ts cr' Hrest.
    destruct (readAll_total cr) as [y Hy]. rewrite Hy. unfold readAll in *.
    set (F := (S (remaining cr) + S (remaining cr1))%nat).
    pose proof (readAll_loop_fuel _ _ _ _ Hy (S F) ltac:(lia)) as H1.
    pose proof (readAll_loop_fuel _ _ _ _ Hrest F ltac:(lia)) as H2.
    subst F. cbn [Nat.add] in H1, H2.
    remember (remaining cr + S (remaining cr1))%nat as G.
    rewrite readAll_loop_step, Ht, HP in H1.
    assert (H3 : readAll_loop (S G) nil cr2 = Some ((ts, None), cr')).
    { rewrite readAll_loop_step in H2 |- *.
      replace cr2 with (snd (Peek cr1)) by (by rewrite HP).
      by rewrite readTable_Peek. }
    apply (readAll_loop_acc _ [t]) in H3. cbn [app] in H1, H3. congruence.
Qed.

End WithRuntime.

(** ** The theorems at sample inputs *)

#[local] Existing Instance sampleRuntime.

Lemma readAll_at_error_witness :
  fst <$> readAll (newReader nil) = Some ([emptyTable], None).
Proof.
  by rewrite (@readAll_at_error sampleRuntime (newReader nil) nil EOF eq_refl).
Defined.

Lemma readAll_outcome_witness :
  exists ts cr',
    readAll (newReader twoTables) = Some ((ts, None), cr')
    /\ hasPeeked cr' = true /\ err cr' = Some EOF.
Proof.
  eexists _, _. split; [vm_compute; reflexivity |].
  eapply (@readAll_outcome sampleRuntime (newReader twoTables) _ None).
  vm_compute. reflexivity.
Defined.

Lemma convertToType_passes_text_witness :
  convertToType "x" "tag" = (Str "x", None).
Proof. by apply (@convertToType_passes_text sampleRuntime "x" "tag"). Defined.

Lemma readHeader_schema_witness :
  exists cr',
    readHeader (newReader twoTables)
    = Some (([ mkColumn 0 "" false Nil "";
               mkColumn 0 "host" false Nil "string";
               mkColumn 0 "n" false (Int64 7) "long" ], None), cr')
    /\ upcoming cr' = drop 3 twoTables.
Proof.
  apply (@readHeader_schema sampleRuntime (newReader twoTables)
           [ ["#datatype"; "string"; "long"]; ["#default"; ""; "7"] ]
           [""; "host"; "n"] (drop 3 twoTables)).
  - reflexivity.
  - discriminate.
  - reflexivity.
  - repeat (constructor; [by split |]). constructor.
  - intros [|[|[|i]]] Hi _; [reflexivity.. |]. cbn in Hi. lia.
Defined.

Lemma readHeader_bad_default_witness :
  exists cr',
    readHeader (newReader badDefault)
    = Some ((nil,
             Some (Errorf "cannot convert default value %q to type %q: %v"
                     [AStr "x"; AStr "long";
                      AErr (NumError "ParseInt" "x" ErrSyntax)])), cr')
    /\ upcoming cr' = drop 3 badDefault.
Proof.
  apply (@readHeader_bad_default sampleRuntime (newReader badDefault)
           [ ["#datatype"; "long"; "long"]; ["#default"; ""; "x"] ]
           [""; "a"; "b"] (drop 3 badDefault) 2%nat
           (NumError "ParseInt" "x" ErrSyntax)).
  - reflexivity.
  - discriminate.
  - reflexivity.
  - repeat (constructor; [by split |]). constructor.
  - cbn. lia.
  - discriminate.
  - reflexivity.
  - intros [|[|j]] Hj Hd; [by destruct Hd.. |]. lia.
Defined.

Lemma rowFields_row_witness :
  exists m,
    rowFields
      [ mkColumn 0 "" false Nil ""; mkColumn 0 "host" false Nil "string";
        mkColumn 0 "n" false (Int64 7) "long" ]
      [""; "b"; ""] ∅ = inl m
    /\ m !! "host" = Some (Str "b")
    /\ m !! "n" = Some (Int64 7)
    /\ m !! "" = None.
Proof.
  destruct (@rowFields_row sampleRuntime
              [ mkColumn 0 "" false Nil ""; mkColumn 0 "host" false Nil "string";
                mkColumn 0 "n" false (Int64 7) "long" ]
              [""; "b"; ""]) as (m & Hm & Hcells & _).
  - reflexivity.
  - apply (bool_decide_unpack _). vm_compute. reflexivity.
  - intros [|[|[|i]]] c v [= <-] [= <-]; reflexivity.
  - exists m. split; [exact Hm |].
    split; [exact (Hcells 1%nat _ _ eq_refl eq_refl) |].
    split; [exact (Hcells 2%nat _ _ eq_refl eq_refl) |].
    exact (Hcells 0%nat _ _ eq_refl eq_refl).
Defined.

Lemma readTableRows_data_witness :
  exists cr',
    readTableRows
      (newReader [ rec [""; "a"; "1"]; rec [""; "b"; ""]; rec ["#datatype"; "boolean"] ])
      [ mkColumn 0 "" false Nil ""; mkColumn 0 "host" false Nil "string";
        mkColumn 0 "n" false (Int64 7) "long" ]
    = Some (([ <[ "n" := Int64 1 ]> (<[ "host" := Str "a" ]> ∅);
               <[ "n" := Int64 7 ]> (<[ "host" := Str "b" ]> ∅) ], None), cr')
    /\ upcoming cr' = [ rec ["#datatype"; "boolean"] ].
Proof.
  apply (@readTableRows_data sampleRuntime _ _
           [ [""; "a"; "1"]; [""; "b"; ""] ] _ [ rec ["#datatype"; "boolean"] ]).
  - reflexivity.
  - repeat (constructor;
            [split; [reflexivity | split; [reflexivity | vm_compute; reflexivity]] |]).
    constructor.
  - reflexivity.
Defined.

Lemma readTable_columns_witness :
  exists t cr2,
    readTable (newReader twoTables) = Some (inl t, cr2)
    /\ Columns t !! "n" = Some (mkColumn 2 "n" false (Int64 7) "long")
    /\ Columns t !! "" = None.
Proof.
  eexists _, _. split; [vm_compute; reflexivity |].
  destruct (@readTable_columns sampleRuntime (newReader twoTables)
              [ mkColumn 0 "" false Nil ""; mkColumn 0 "host" false Nil "string";
                mkColumn 0 "n" false (Int64 7) "long" ] _ _ _
              ltac:(vm_compute; reflexivity) ltac:(vm_compute; reflexivity)
              ltac:(apply (bool_decide_unpack _); vm_compute; reflexivity))
    as [Hcols _].
  split; [exact (Hcols 2%nat _ eq_refl) | exact (Hcols 0%nat _ eq_refl)].
Defined.

Lemma readAll_tables_witness :
  exists t cr1 ts cr',
    readTable (newReader twoTables) = Some (inl t, cr1)
    /\ readAll cr1 = Some ((ts, None), cr')
    /\ readAll (newReader twoTables) = Some ((t :: ts, None), cr').
Proof.
  eexists _, _, _, _. split; [vm_compute; reflexivity |].
  split; [vm_compute; reflexivity |].
  lazymatch goal with
  | |- readAll _ = Some ((?t :: _, None), _) =>
      pose proof (@readAll_tables sampleRuntime (newReader twoTables) t _
                    ltac:(vm_compute; reflexivity)) as H
  end.
  apply H. vm_compute. reflexivity.
Defined.

End DecoderProperties.

(* ===================================================================== *)
(** * Further properties of the line-protocol encoder                     *)
(* ===================================================================== *)

Module EncoderProperties.
Import Go GoFacts Csv2lineprotocol Csv2lineprotocolFacts Sample.

Section WithRuntime.
Context {rt : Runtime}.

(** ** The column indexes of a table *)

(** One turn of the loop over the columns, when the loop succeeds. *)
Lemma columnsLoop_cons (i : Z) (col : Column) (cols : list Column)
    (info info' : tableInfo) :
  columnsLoop i (col :: cols) info = inl info' ->
  exists info1,
    columnsLoop (i + 1) cols info1 = inl info'
    /\ measurement info1
       = (if (Name col =? "_measurement")%string then i else measurement info)
    /\ field info1 = (if (Name col =? "_field")%string then i else field info)
    /\ value info1 = (if (Name col =? "_value")%string then i else value info)
    /\ time info1 = (if (Name col =? "_time")%string then i else time info).
Proof.
  cbn [columnsLoop].
  destruct (String.eqb_spec (Name col) "_measurement") as [E|N1];
    [| destruct (String.eqb_spec (Name col) "_field") as [E|N2];
       [| destruct (String.eqb_spec (Name col) "_value") as [E|N3];
          [| destruct (String.eqb_spec (Name col) "_time") as [E|N4];
             [| destruct (String.eqb_spec (Name col) "") as [E|N5]]]]];
    try rewrite E; cbn [String.eqb Ascii.eqb Bool.eqb];
    repeat match goal with
    | |- (if negb ?b then _ else _) = _ -> _ => destruct b; cbn [negb]; [| discriminate]
    end;
    intros H; eexists; (split; [exact H |]); cbn; done.
Qed.

(** An index the loop sets at every column named [name], and at no
    other, ends at the last such column, or where it started. *)
Lemma columnsLoop_last (get : tableInfo -> Z) (name : string) :
  (forall i col cols info info',
     columnsLoop i (col :: cols) info = inl info' ->
     exists info1,
       columnsLoop (i + 1) cols info1 = inl info'
       /\ get info1 = (if (Name col =? name)%string then i else get info)) ->
  forall cols i info info',
    columnsLoop i cols info = inl info' ->
    (get info' = get info /\ hasColumn name cols = false)
    \/ (i <= get info'
        /\ exists c, cols !! Z.to_nat (get info' - i) = Some c /\ Name c = name
             /\ forall j c', (Z.to_nat (get info' - i) < j)%nat ->
                  cols !! j = Some c' -> Name c' <> name).
Proof.
  intros Hstep. induction cols as [|col cols IH]; intros i info info' H.
  { cbn in H. injection H as <-. by left. }
  destruct (Hstep _ _ _ _ _ H) as (info1 & H1 & Hg).
  destruct (IH _ _ _ H1) as [[Hsame Hno]|(Hle & c & Hc & Hn & Hlast)].
  - rewrite Hsame, Hg. rewrite hasColumn_cons.
    destruct (String.eqb_spec (Name col) name) as [E|N]; [right | by left].
    split; [lia |]. exists col. rewrite Z.sub_diag. split; [done |]. split; [done |].
    intros [|j] c' Hj Hc'; [cbn in Hj; lia |]. cbn in Hc'.
    unfold hasColumn in Hno. intros E'.
    assert (existsb (fun c0 => (Name c0 =? name)%string) cols = true); [| congruence].
    apply existsb_exists. exists c'. split.
    + apply list_elem_of_In. by eapply list_elem_of_lookup_2.
    + by apply String.eqb_eq.
  - right. split; [lia |]. exists c.
    replace (Z.to_nat (get info' - i)) with (S (Z.to_nat (get info' - (i + 1)))) by lia.
    split; [done |]. split; [done |].
    intros [|j] c' Hj Hc'; [lia |]. cbn in Hc'. apply (Hlast j c'); [lia | done].
Qed.

Lemma tagColumns_lookup (cols : list Column) (p : Z * Column) :
  p ∈ tagColumns cols ->
  0 <= fst p /\ cols !! Z.to_nat (fst p) = Some (snd p) /\ isTag (snd p) = true.
Proof.
  unfold tagColumns, tagColumnsFrom. intros H.
  apply list_elem_of_filter in H as [Ht H].
  apply list_elem_of_lookup in H as [k Hk].
  rewrite list_lookup_imap in Hk.
  destruct (cols !! k) as [c|] eqn:Hc; [| discriminate]. cbn in Hk.
  injection Hk as <-. cbn [fst snd] in *.
  split; [lia |]. split; [| done]. by rewrite Z.add_0_l, Nat2Z.id.
Qed.

(** Each index is the position of the last column of its name. *)
Lemma tableInfoForColumns_last (cols : list Column) (info : tableInfo) :
  tableInfoForColumns cols = inl info ->
  pointsAtLast "_measurement" cols (measurement info)
  /\ pointsAtLast "_field" cols (field info)
  /\ pointsAtLast "_value" cols (value info)
  /\ pointsAtLast "_time" cols (time info).
Proof.
  intros H. unfold tableInfoForColumns in H.
  destruct (columnsLoop 0 cols _) as [info0|e] eqn:Hloop; [| discriminate].
  destruct (Z.eqb_spec (measurement info0) (-1)) as [|E1]; [discriminate |].
  destruct (Z.eqb_spec (field info0) (-1)) as [|E2]; [discriminate |].
  destruct (Z.eqb_spec (value info0) (-1)) as [|E3]; [discriminate |].
  destruct (Z.eqb_spec (time info0) (-1)) as [|E4]; [discriminate |].
  injection H as ->.
  assert (Hlast : forall get name,
    (forall i col cols info info',
       columnsLoop i (col :: cols) info = inl info' ->
       exists info1,
         columnsLoop (i + 1) cols info1 = inl info'
         /\ get info1 = (if (Name col =? name)%string then i else get info)) ->
    get {| measurement := -1; field := -1; value := -1; time := -1;
           tagNames := nil; tagIndexes := nil |} = -1 ->
    get info <> -1 -> pointsAtLast name cols (get info)).
  { intros get name Hstep Hinit Hset.
    destruct (columnsLoop_last get name Hstep _ _ _ _ Hloop)
      as [[Hsame _]|(Hle & c & Hc & Hname & Hl)]; [congruence |].
    rewrite Z.sub_0_r in *. split; [done |]. by exists c. }
  split; [| split; [| split]].
  - apply (Hlast measurement); [| done | done].
    intros i col cs i0 i' Hc.
    destruct (columnsLoop_cons _ _ _ _ _ Hc) as (i1 & ? & ? & ? & ? & ?). eauto.
  - apply (Hlast field); [| done | done].
    intros i col cs i0 i' Hc.
    destruct (columnsLoop_cons _ _ _ _ _ Hc) as (i1 & ? & ? & ? & ? & ?). eauto.
  - apply (Hlast value); [| done | done].
    intros i col cs i0 i' Hc.
    destruct (columnsLoop_cons _ _ _ _ _ Hc) as (i1 & ? & ? & ? & ? & ?). eauto.
  - apply (Hlast time); [| done | done].
    intros i col cs i0 i' Hc.
    destruct (columnsLoop_cons _ _ _ _ _ Hc) as (i1 & ? & ? & ? & ? & ?). eauto.
Qed.

(** Tag names and tag indexes go in pairs. *)
Lemma tableInfoForColumns_tags (cols : list Column) (info : tableInfo) :
  tableInfoForColumns cols = inl info ->
  Forall2 (fun name i =>
             0 <= i /\ exists c, cols !! Z.to_nat i = Some c /\ isTag c = true
                                 /\ name = tagKey c)
    (tagNames info) (tagIndexes info).
Proof.
  intros H. pose proof (tableInfoForColumns_spec cols) as S. rewrite H in S.
  destruct S as (_ & _ & -> & ->).
  apply Forall2_fmap, Forall_Forall2_diag, Forall_forall.
  intros p Hp. destruct (tagColumns_lookup cols p Hp) as (? & ? & ?).
  split; [done |]. by exists (snd p).
Qed.

(** X13: the columns a table is written from. When [tableInfoForColumns]
    succeeds, each of its four indexes is the position of the last column
    of that reserved name (a later column of the same name overrides an
    earlier one), so all four are valid positions of a row as wide as the
    columns; and the tag names and tag indexes go in pairs, each index
    being the position of a tag column and each name that column's key. *)
Theorem tableInfo_indexes (cols : list Column) (info : tableInfo) :
  tableInfoForColumns cols = inl info ->
  (pointsAtLast "_measurement" cols (measurement info)
   /\ pointsAtLast "_field" cols (field info)
   /\ pointsAtLast "_value" cols (value info)
   /\ pointsAtLast "_time" cols (time info))
  /\ Forall2 (fun name i =>
                0 <= i /\ exists c, cols !! Z.to_nat i = Some c /\ isTag c = true
                                    /\ name = tagKey c)
       (tagNames info) (tagIndexes info).
Proof.
  intros H. split;
    [by apply tableInfoForColumns_last | by apply tableInfoForColumns_tags].
Qed.

(** ** Rows that can be written *)

Lemma index_lookup (row : list any) (i : Z) (v : any) :
  0 <= i -> row !! Z.to_nat i = Some v -> index row i = Returns v.
Proof.
  intros Hi Hv. unfold index. destruct (Z.ltb_spec i 0); [lia |]. by rewrite Hv.
Qed.

Lemma encodable_lookup (cols : list Column) (row : list any) (i : Z) (c : Column) :
  encodable cols row -> 0 <= i -> cols !! Z.to_nat i = Some c ->
  exists v, index row i = Returns v /\ decoderKind v = true
            /\ (Name c = "_time" -> exists t, v = TimeVal t).
Proof.
  intros (Hl & Hk & Ht) Hi Hc.
  destruct (lookup_lt_is_Some_2 row (Z.to_nat i)) as [v Hv].
  { rewrite Hl. by eapply lookup_lt_Some. }
  exists v. split; [by apply index_lookup |]. split.
  - rewrite Forall_forall in Hk. apply Hk. by eapply list_elem_of_lookup_2.
  - by apply (Ht (Z.to_nat i) c v).
Qed.

Lemma writeTags_returns (cols : list Column) (row : list any) :
  encodable cols row ->
  forall names indexes line,
    Forall2 (fun name i =>
               0 <= i /\ exists c, cols !! Z.to_nat i = Some c /\ isTag c = true
                                   /\ name = tagKey c) names indexes ->
    exists line', writeTags row names indexes line = Returns line'.
Proof.
  intros He names indexes line H. revert line.
  induction H as [|name i names indexes (Hi & c & Hc & _) _ IH]; intros line;
    [by eexists |].
  cbn [writeTags escapeValue mbind exec_bind].
  destruct (encodable_lookup cols row i c He Hi Hc) as (v & -> & Hk & _).
  cbn [mbind exec_bind].
  destruct (proj1 (escapeValue_kind v tagValueEscaper) Hk) as [text ->].
  cbn [mbind exec_bind]. apply IH.
Qed.

Lemma writeRow_returns (cols : list Column) (info : tableInfo) (row : list any) :
  tableInfoForColumns cols = inl info -> encodable cols row ->
  exists line, writeRow info row = Returns (inl line).
Proof.
  intros Hinfo He.
  destruct (tableInfoForColumns_last cols info Hinfo)
    as ((Hm & cm & Hcm & _) & (Hf & cf & Hcf & _) & (Hv & cv & Hcv & _)
        & (Ht & ct & Hct & Hnt & _)).
  pose proof (tableInfoForColumns_tags cols info Hinfo) as Htags.
  unfold writeRow.
  destruct (encodable_lookup cols row _ cm He Hm Hcm) as (vm & -> & Hkm & _).
  cbn [mbind exec_bind].
  destruct (proj1 (escapeValue_kind vm measurementEscaper) Hkm) as [tm ->].
  cbn [mbind exec_bind].
  destruct (writeTags_returns cols row He _ _ tm Htags) as [line ->].
  cbn [mbind exec_bind].
  destruct (encodable_lookup cols row _ cf He Hf Hcf) as (vf & -> & Hkf & _).
  cbn [mbind exec_bind].
  destruct (proj1 (escapeValue_kind vf fieldNameEscaper) Hkf) as [tf ->].
  cbn [mbind exec_bind].
  destruct (encodable_lookup cols row _ cv He Hv Hcv) as (vv & -> & Hkv & _).
  cbn [mbind exec_bind].
  destruct (encodable_lookup cols row _ ct He Ht Hct) as (vt & Hit & _ & Htime).
  destruct (Htime Hnt) as [t ->].
  destruct vv; try discriminate; cbn [fieldValue]; rewrite Hit;
    cbn [mbind exec_bind assertTime]; by eexists.
Qed.

Lemma writeRows_returns (cols : list Column) (info : tableInfo) :
  tableInfoForColumns cols = inl info ->
  forall rows output,
    Forall (encodable cols) rows ->
    exists output', writeRows info rows output = (output', Returns None).
Proof.
  intros Hinfo. induction rows as [|row rows IH]; intros output Hr; [by eexists |].
  apply Forall_cons in Hr as [He Hr]. cbn [writeRows].
  destruct (writeRow_returns cols info row Hinfo He) as [line ->]. by apply IH.
Qed.

Lemma writeTables_returns (rd : Reader) :
  Forall (fun t => (exists info, tableInfoForColumns (Columns t) = inl info)
                   /\ Forall (encodable (Columns t)) (Rows t)) rd ->
  forall output, exists output', writeTables rd output = (output', Returns None).
Proof.
  induction rd as [|t rd IH]; intros H output; [by eexists |].
  apply Forall_cons in H as [[[info Hinfo] Hrows] H]. cbn [writeTables].
  rewrite Hinfo.
  destruct (writeRows_returns _ info Hinfo (Rows t) output Hrows) as [out1 ->].
  by apply IH.
Qed.

(** X14: tables that are written without failure. When every table has
    the four reserved columns with the types the encoder wants, and every
    row has one value per column, each an int64, uint64, float64, bool,
    string or time, with a time under every column named [_time], the
    encoder neither panics nor returns an error. *)
Theorem writeLineProtocol_returns (rd : Reader) :
  Forall (fun t => (exists info, tableInfoForColumns (Columns t) = inl info)
                   /\ Forall (encodable (Columns t)) (Rows t)) rd ->
  exists output, writeLineProtocol rd = (output, Returns None).
Proof. intros H. by apply writeTables_returns. Qed.

(** ** What has been written stays *)

Lemma writeRows_output (info : tableInfo) (rows : list (list any)) :
  forall output,
    writeRows info rows output
    = (output +:+ fst (writeRows info rows ""), snd (writeRows info rows "")).
Proof.
  induction rows as [|row rows IH]; intros output; cbn [writeRows].
  { by rewrite append_nil_r. }
  destruct (writeRow info row) as [[line|e]|e]; cbn [fst snd];
    rewrite ?append_nil_r; try done.
  rewrite (IH (output +:+ line)), (IH ("" +:+ line)). cbn [fst snd].
  by rewrite append_assoc.
Qed.

Lemma writeTables_output (rd : Reader) :
  forall output,
    writeTables rd output
    = (output +:+ fst (writeTables rd ""), snd (writeTables rd "")).
Proof.
  induction rd as [|t rd IH]; intros output; cbn [writeTables].
  { by rewrite append_nil_r. }
  destruct (tableInfoForColumns (Columns t)) as [info|e]; cbn [fst snd];
    [| by rewrite append_nil_r].
  rewrite (writeRows_output info (Rows t) output).
  destruct (writeRows info (Rows t) "") as [out1 [[e|]|e]]; cbn [fst snd]; try done.
  rewrite (IH (output +:+ out1)), (IH out1). cbn [fst snd].
  by rewrite append_assoc.
Qed.

Lemma writeTables_app (rd1 rd2 : Reader) :
  forall output,
    writeTables (rd1 ++ rd2)%list output
    = match writeTables rd1 output with
      | (output1, Returns None) => writeTables rd2 output1
      | stopped => stopped
      end.
Proof.
  induction rd1 as [|t rd1 IH]; intros output; [done |].
  cbn [app writeTables].
  destruct (tableInfoForColumns (Columns t)) as [info|e]; [| done].
  by destruct (writeRows info (Rows t) output) as [out1 [[e|]|e]].
Qed.

(** X15: the encoder writes table after table. What a run over the tables
    [rd1] followed by [rd2] writes and returns is what the run over [rd1]
    does, followed, when that run ends without error, by what the run over
    [rd2] does; when the run over [rd1] fails or panics, nothing of [rd2]
    is written, and what was written before the failure has been flushed. *)
Theorem writeLineProtocol_app (rd1 rd2 : Reader) :
  writeLineProtocol (rd1 ++ rd2)%list
  = match writeLineProtocol rd1 with
    | (output1, Returns None) =>
        (output1 +:+ fst (writeLineProtocol rd2), snd (writeLineProtocol rd2))
    | stopped => stopped
    end.
Proof.
  unfold writeLineProtocol. rewrite writeTables_app.
  destruct (writeTables rd1 "") as [out1 [[e|]|e]]; try done.
  apply writeTables_output.
Qed.

(** X16: the lines of a table. When the rows [rows1] are written as the
    lines [lines], the output after them is the output before them
    followed by these lines in order, and the run goes on from there with
    the rows behind them: a row that fails or panics leaves the lines
    before it written and writes nothing itself. *)
Theorem writeRows_lines (info : tableInfo) (rows1 : list (list any))
    (lines : list string) (rows2 : list (list any)) (output : string) :
  Forall2 (fun row line => writeRow info row = Returns (inl line)) rows1 lines ->
  writeRows info (rows1 ++ rows2)%list output
  = match rows2 with
    | nil => (output +:+ String.concat "" lines, Returns None)
    | row :: rows' =>
        match writeRow info row with
        | Panics e => (output +:+ String.concat "" lines, Panics e)
        | Returns (inr e) => (output +:+ String.concat "" lines, Returns (Some e))
        | Returns (inl line) =>
            writeRows info rows' (output +:+ String.concat "" lines +:+ line)
        end
    end.
Proof.
  intros H. revert output.
  induction H as [|row line rows1 lines Hrow _ IH]; intros output.
  - cbn [app String.concat]. rewrite append_nil_r.
    destruct rows2 as [|row rows']; [done |]. cbn [writeRows].
    by destruct (writeRow info row) as [[line|e]|e].
  - cbn [app writeRows]. rewrite Hrow, IH.
    assert (E : forall rest, (output +:+ line) +:+ String.concat "" lines +:+ rest
                = output +:+ String.concat "" (line :: lines) +:+ rest).
    { intros rest. rewrite append_assoc. f_equal.
      destruct lines as [|l ls]; cbn [String.concat]; [| by rewrite !append_assoc].
      done. }
    pose proof (E "") as E0. rewrite !append_nil_r in E0.
    destruct rows2 as [|row2 rows']; [by rewrite E0 |].
    destruct (writeRow info row2) as [[line2|e]|e]; rewrite ?E0; try done.
    by rewrite <- !append_assoc, E0.
Qed.

(** ** The escapers *)

(** A replacer whose old strings are single bytes looks at one byte at a
    time. *)
Lemma firstMatch_byte (rp : Replacer) (c : ascii) (s : string) :
  Forall (fun p => String.length (fst p) = 1%nat) rp ->
  firstMatch rp (String c s) = firstMatch rp (String c "").
Proof.
  induction rp as [|[old new] rp IH]; intros H; [done |].
  apply Forall_cons in H as [Hl H]. cbn [firstMatch].
  destruct old as [|o [|o' old]]; try discriminate. cbn [String.prefix].
  destruct (ascii_dec o c); [| by apply IH].
  by destruct s.
Qed.

Lemma Replace_cons (rp : Replacer) (c : ascii) (s : string) :
  Forall (fun p => String.length (fst p) = 1%nat) rp ->
  Replace rp (String c s) = Replace rp (String c "") +:+ Replace rp s.
Proof.
  intros H. unfold Replace. cbn [replaceFrom].
  rewrite (firstMatch_byte rp c s H).
  destruct (firstMatch rp (String c "")) as [[old new]|] eqn:E; [| done].
  assert (Hl : String.length old = 1%nat).
  { clear -H E. induction rp as [|[o n] rp IH]; [discriminate |].
    apply Forall_cons in H as [Hl H]. cbn [firstMatch] in E.
    destruct (String.prefix o (String c "")); [by simplify_eq | by apply IH]. }
  rewrite Hl. cbn [Nat.pred]. by rewrite append_assoc.
Qed.

Lemma Replace_app (rp : Replacer) (a b : string) :
  Forall (fun p => String.length (fst p) = 1%nat) rp ->
  Replace rp (a +:+ b) = Replace rp a +:+ Replace rp b.
Proof.
  intros H. induction a as [|c a IH]; [done |].
  rewrite append_cons, (Replace_cons rp c (a +:+ b)), (Replace_cons rp c a) by done.
  by rewrite IH, append_assoc.
Qed.

Lemma Replace_clean (rp : Replacer) (s : string) :
  Forall (fun p => String.length (fst p) = 1%nat) rp ->
  forallb (fun c => negb (escapes rp c)) (list_ascii_of_string s) = true ->
  Replace rp s = s.
Proof.
  intros H. induction s as [|c s IH]; [done |]. cbn [list_ascii_of_string forallb].
  intros [Hc Hs]%andb_true_iff. rewrite (Replace_cons rp c s) by done.
  rewrite (IH Hs). unfold escapes in Hc. unfold Replace. cbn [replaceFrom].
  by destruct (firstMatch rp (String c "")).
Qed.

Lemma escapers_bytes (rp : Replacer) :
  In rp escapers -> Forall (fun p => String.length (fst p) = 1%nat) rp.
Proof.
  intros [<-|[<-|[<-|[<-|[<-|[]]]]]]; repeat constructor.
Qed.

(** X17: escaping goes byte by byte. For each of the five escapers, the
    escaped form of two texts joined is the escaped forms joined, and a
    text with none of the bytes the escaper rewrites comes out
    unchanged. *)
Theorem escapers_bytewise (rp : Replacer) (a b : string) :
  In rp escapers ->
  Replace rp (a +:+ b) = Replace rp a +:+ Replace rp b
  /\ (forallb (fun c => negb (escapes rp c)) (list_ascii_of_string a) = true ->
      Replace rp a = a).
Proof.
  intros H%escapers_bytes. split; [by apply Replace_app | by apply Replace_clean].
Qed.

Lemma tag_byte_keeps_line (c : ascii) :
  forallb (fun x => negb (breaksLine x))
    (list_ascii_of_string (Replace tagNameEscaper (String c ""))) = true
  /\ forallb (fun x => negb (breaksLine x))
       (list_ascii_of_string (Replace measurementEscaper (String c ""))) = true.
Proof. destruct c as [[] [] [] [] [] [] [] []]; vm_compute; done. Qed.

Lemma list_ascii_of_string_app (a b : string) :
  list_ascii_of_string (a +:+ b)
  = (list_ascii_of_string a ++ list_ascii_of_string b)%list.
Proof.
  induction a as [|c a IH]; [done |].
  rewrite append_cons. cbn [list_ascii_of_string app]. by rewrite IH.
Qed.

(** X18: an escaped measurement, tag key, tag value or field key holds no
    tab, newline, form feed or carriage return: none of them can end or
    split the line it is written on. *)
Theorem escaped_keeps_line (s : string) :
  forallb (fun x => negb (breaksLine x))
    (list_ascii_of_string (Replace tagNameEscaper s)) = true
  /\ forallb (fun x => negb (breaksLine x))
       (list_ascii_of_string (Replace measurementEscaper s)) = true.
Proof.
  induction s as [|c s [IH1 IH2]]; [done |].
  rewrite (Replace_cons tagNameEscaper c s), (Replace_cons measurementEscaper c s)
    by repeat constructor.
  rewrite !list_ascii_of_string_app, !forallb_app, IH1, IH2.
  destruct (tag_byte_keeps_line c) as [-> ->]. done.
Qed.

End WithRuntime.

(** ** The theorems at sample inputs *)

#[local] Existing Instance sampleRuntime.

Lemma tableInfo_indexes_witness :
  exists info,
    tableInfoForColumns underscoreColumns = inl info
    /\ pointsAtLast "_time" underscoreColumns (time info)
    /\ time info = 7.
Proof.
  eexists. split; [vm_compute; reflexivity |].
  split; [| reflexivity].
  exact (proj2 (proj2 (proj2 (proj1
           (tableInfo_indexes underscoreColumns _ eq_refl))))).
Defined.

Lemma writeLineProtocol_returns_witness :
  exists output, writeLineProtocol [cpuTable] = (output, Returns None).
Proof.
  apply (@writeLineProtocol_returns sampleRuntime [cpuTable]).
  constructor; [| constructor]. split.
  - eexists. vm_compute. reflexivity.
  - constructor; [| constructor]. split; [reflexivity |]. split.
    + repeat constructor.
    + intros [|[|[|[|[|i]]]]] c v [= <-] [= <-]; try discriminate. by eexists.
Defined.

Lemma writeRows_lines_witness :
  writeRows
    {| measurement := 0; field := 1; value := 2; time := 3;
       tagNames := ["host"]; tagIndexes := [4] |}
    (Rows cpuTable) ""
  = ("cpu,host=a temp=1.5 1672531200000000000" +:+ newline, Returns None).
Proof.
  exact (@writeRows_lines sampleRuntime
           {| measurement := 0; field := 1; value := 2; time := 3;
              tagNames := ["host"]; tagIndexes := [4] |}
           (Rows cpuTable) ["cpu,host=a temp=1.5 1672531200000000000" +:+ newline]
           nil "" ltac:(repeat constructor)).
Defined.

Lemma escapers_bytewise_witness :
  Replace stringFieldEscaper ("say " +:+ dquote)
  = Replace stringFieldEscaper "say " +:+ Replace stringFieldEscaper dquote
  /\ Replace stringFieldEscaper "say " = "say ".
Proof.
  destruct (escapers_bytewise stringFieldEscaper "say " dquote)
    as [H1 H2].
  - do 3 right. by left.
  - split; [exact H1 | by apply H2].
Defined.

End EncoderProperties.
